(** * logstash output sinks: a shallow embedding of [logstash/__init__.py]

    The module defines three output sinks ([Sink], [StdoutSink],
    [RedisSink]) and the configuration reader [read_config].  The
    embedding follows the Python text statement by statement:

    - exceptions are values of [exn]; a computation returns [Ok v] or
      [Raise e] together with the state it leaves behind, so that an
      assignment done before a [raise] stays visible;
    - the redis client, the logging framework, standard output and the
      file system are the [world]: a record with the server's lists, the
      files, the text written to stdout and the [trace] of every external
      call in program order;
    - what the environment answers to an external call (success or the
      exception it raises) is read from the [script] of the world, so a
      theorem that quantifies over worlds quantifies over every behaviour
      of the network;
    - a method [log] is two things: its body, run on the dict bound to
      [**kwargs] ([StdoutSink.log], [RedisSink.log]), and the call, which
      first binds the keyword arguments to [def log(self, **kwargs)] and
      raises [TypeError] when it cannot ([Call.StdoutSink_log],
      [Call.RedisSink_log]);
    - [Json.dumps] is [json.dumps] on the events whose integers the
      interpreter converts to text ([Limits]). *)

From Stdlib Require Import ZArith NArith Ascii String DecimalString Lia.
From stdpp Require Import base option list strings gmap.

Set Warnings "-register-all".
Local Open Scope Z_scope.
Local Open Scope string_scope.

(* ===================================================================== *)
(** * Python values, exceptions and the exception monad *)
(* ===================================================================== *)

Module Py.

(** The exception classes the module can meet.  [ConnectionError] is
    [redis.exceptions.ConnectionError]; [ResponseError] stands for the
    other errors of the redis client (a server-side rejection);
    [TimeoutError] is [redis.exceptions.TimeoutError], what the client
    raises when the socket times out, a [RedisError] that is not a
    [ConnectionError]; [KeyboardInterrupt] and [SystemExit] derive from
    [BaseException] only. *)
Inductive exn : Type :=
| ConnectionError (msg : string)
| ResponseError (msg : string)
| TimeoutError (msg : string)
| TypeError (msg : string)
| ValueError (msg : string)
| KeyError (key : string)
| AttributeError (msg : string)
| IOError (msg : string)
| KeyboardInterrupt
| SystemExit (code : Z).

(** [isinstance(e, redis.exceptions.ConnectionError)] *)
Definition is_ConnectionError (e : exn) : bool :=
  match e with ConnectionError _ => true | _ => false end.

(** [isinstance(e, ValueError)] *)
Definition is_ValueError (e : exn) : bool :=
  match e with ValueError _ => true | _ => false end.

(** [isinstance(e, Exception)] *)
Definition is_Exception (e : exn) : bool :=
  match e with KeyboardInterrupt | SystemExit _ => false | _ => true end.

(** Decimal text of an integer, as [int.__repr__] and [str.format]. *)
Definition int_repr (z : Z) : string := NilZero.string_of_int (Z.to_int z).

Definition dquote : string := String "034"%char EmptyString.

(** [str(e)] *)
Definition str_exn (e : exn) : string :=
  match e with
  | ConnectionError m | ResponseError m | TimeoutError m | TypeError m
  | ValueError m | AttributeError m | IOError m => m
  | KeyError k => "'" +:+ k +:+ "'"
  | KeyboardInterrupt => ""
  | SystemExit c => int_repr c
  end.

Inductive result (A : Type) : Type :=
| Ok (a : A)
| Raise (e : exn).
Arguments Ok {A} a.
Arguments Raise {A} e.

(** A statement run in a state [S]: its outcome and the state after it. *)
Definition M (S A : Type) : Type := S -> result A * S.

Definition ret {S A} (a : A) : M S A := fun s => (Ok a, s).
Definition raise {S A} (e : exn) : M S A := fun s => (Raise e, s).
Definition bind {S A B} (m : M S A) (k : A -> M S B) : M S B :=
  fun s => match m s with
           | (Ok a, s1) => k a s1
           | (Raise e, s1) => (Raise e, s1)
           end.

(** [try: body  except C as e: handler e]: the handler runs in the
    state the body left, for the exceptions of class [C]; any other
    exception goes on to the caller. *)
Definition try_except {S A} (body : M S A) (C : exn -> bool)
    (handler : exn -> M S A) : M S A :=
  fun s => match body s with
           | (Ok a, s1) => (Ok a, s1)
           | (Raise e, s1) => if C e then handler e s1 else (Raise e, s1)
           end.

Definition gets {S A} (f : S -> A) : M S A := fun s => (Ok (f s), s).
Definition modify {S} (f : S -> S) : M S unit := fun s => (Ok tt, f s).

(** A pure computation that may raise, used as a statement. *)
Definition lift_result {S A} (r : result A) : M S A := fun s => (r, s).

(** Run a statement on the second component of a pair of states. *)
Definition on_snd {S1 S2 A} (m : M S2 A) : M (S1 * S2) A :=
  fun s => let (r, s2) := m (snd s) in (r, (fst s, s2)).

Definition rbind {A B} (r : result A) (k : A -> result B) : result B :=
  match r with Ok a => k a | Raise e => Raise e end.

End Py.
Import Py.

Declare Scope py_scope.
Delimit Scope py_scope with py.
Notation "'do' x <- c ; k" := (bind c (fun x => k))
  (at level 10, x name, c at level 100, k at level 200) : py_scope.
Notation "'let?' x := r 'in' k" := (rbind r (fun x => k))
  (at level 10, x name, r at level 100, k at level 200) : py_scope.
Local Open Scope py_scope.

(* ===================================================================== *)
(** * [json.dumps] with its default arguments *)
(* ===================================================================== *)

Module Json.

(** A Python [str]: its code points. *)
Definition pystr : Type := list N.

(** The [str] of an ASCII literal. *)
Fixpoint str (s : string) : pystr :=
  match s with
  | EmptyString => []
  | String a s' => N_of_ascii a :: str s'
  end.

(** Keys of a [dict].  Keyword arguments always give [KStr]. *)
Inductive pykey : Type :=
| KStr (s : pystr)
| KInt (z : Z)
| KFloat (repr : string)
| KBool (b : bool)
| KNone
| KObject (type_name : string).

(** The Python values an event can hold.  A [float] is given by the text
    of its [float.__repr__] ([nan], [inf] and [-inf] for the three
    special values); [PyList] stands for [list] and [tuple]; [PyObject]
    is a value of any other type, named by its type. *)
Inductive pyval : Type :=
| PyNone
| PyBool (b : bool)
| PyInt (z : Z)
| PyFloat (repr : string)
| PyStr (s : pystr)
| PyList (items : list pyval)
| PyDict (items : list (pykey * pyval))
| PyObject (type_name : string).

(** [**kwargs]: the keyword arguments of a call, a [dict] with [str]
    keys in the order of the call. *)
Definition kwargs_t : Type := list (pystr * pyval).

Definition dict_of_kwargs (kw : kwargs_t) : pyval :=
  PyDict (map (fun p => (KStr (fst p), snd p)) kw).

Definition hex_digit (n : N) : ascii :=
  match String.get (N.to_nat (n mod 16)) "0123456789abcdef" with
  | Some a => a
  | None => "0"%char
  end.

(** ['{0:04x}'.format(n)] for [n < 0x10000] *)
Definition hex4 (n : N) : string :=
  String (hex_digit (n / 4096))
    (String (hex_digit (n / 256))
       (String (hex_digit (n / 16))
          (String (hex_digit n) EmptyString))).

(** The replacement [json.encoder.py_encode_basestring_ascii] makes for
    one character: [ESCAPE_DCT] first, printable ASCII kept, the rest
    written as [\uXXXX], beyond the basic plane as a surrogate pair. *)
Definition escape_char (c : N) : string :=
  (if c =? 92 then "\\"
   else if c =? 34 then "\" +:+ dquote
   else if c =? 8 then "\b"
   else if c =? 12 then "\f"
   else if c =? 10 then "\n"
   else if c =? 13 then "\r"
   else if c =? 9 then "\t"
   else if (32 <=? c) && (c <=? 126) then String (ascii_of_N c) EmptyString
   else if c <? 65536 then "\u" +:+ hex4 c
   else
     let n := c - 65536 in
     let s1 := N.lor 55296 (N.land (N.shiftr n 10) 1023) in
     let s2 := N.lor 56320 (N.land n 1023) in
     "\u" +:+ hex4 s1 +:+ "\u" +:+ hex4 s2)%N.

Fixpoint escape (s : pystr) : string :=
  match s with
  | [] => ""
  | c :: s' => escape_char c +:+ escape s'
  end.

Definition encode_basestring_ascii (s : pystr) : string :=
  dquote +:+ escape s +:+ dquote.

(** [floatstr] of the encoder, with [allow_nan=True] *)
Definition floatstr (repr : string) : string :=
  if String.eqb repr "nan" then "NaN"
  else if String.eqb repr "inf" then "Infinity"
  else if String.eqb repr "-inf" then "-Infinity"
  else repr.

(** The text a dict key is written as ([skipkeys=False]). *)
Definition encode_key (k : pykey) : result string :=
  match k with
  | KStr s => Ok (encode_basestring_ascii s)
  | KInt z => Ok (dquote +:+ int_repr z +:+ dquote)
  | KFloat r => Ok (dquote +:+ floatstr r +:+ dquote)
  | KBool true => Ok (dquote +:+ "true" +:+ dquote)
  | KBool false => Ok (dquote +:+ "false" +:+ dquote)
  | KNone => Ok (dquote +:+ "null" +:+ dquote)
  | KObject t =>
      Raise (TypeError ("keys must be str, int, float, bool or None, not " +:+ t))
  end.

(** [sep.join(parts)] *)
Fixpoint join (sep : string) (parts : list string) : string :=
  match parts with
  | [] => ""
  | [p] => p
  | p :: rest => p +:+ sep +:+ join sep rest
  end.

(** The texts of the items in order, or the first exception raised. *)
Fixpoint collect (rs : list (result string)) : result (list string) :=
  match rs with
  | [] => Ok []
  | r :: rs' =>
      let? x := r in
      let? xs := collect rs' in
      Ok (x :: xs)
  end.

(** [JSONEncoder().encode(o)]: item separator [", "], key separator
    [": "], no indentation, [ensure_ascii=True], keys in dict order. *)
Fixpoint encode (o : pyval) : result string :=
  match o with
  | PyNone => Ok "null"
  | PyBool true => Ok "true"
  | PyBool false => Ok "false"
  | PyInt z => Ok (int_repr z)
  | PyFloat r => Ok (floatstr r)
  | PyStr s => Ok (encode_basestring_ascii s)
  | PyList items =>
      let? parts := collect (map encode items) in
      Ok ("[" +:+ join ", " parts +:+ "]")
  | PyDict items =>
      let? parts :=
        collect (map (fun kv =>
                        let? sk := encode_key (fst kv) in
                        let? sv := encode (snd kv) in
                        Ok (sk +:+ ": " +:+ sv)) items) in
      Ok ("{" +:+ join ", " parts +:+ "}")
  | PyObject t =>
      Raise (TypeError ("Object of type " +:+ t +:+ " is not JSON serializable"))
  end.

(** [json.dumps(kwargs)] *)
Definition dumps (kw : kwargs_t) : result string := encode (dict_of_kwargs kw).

(** A text without a line feed. *)
Fixpoint one_line (s : string) : bool :=
  match s with
  | EmptyString => true
  | String a s' => negb (Ascii.eqb a "010"%char) && one_line s'
  end.

(** The floats of a value carry the text of a [float.__repr__], which has
    no line feed in it. *)
Definition plain_key (k : pykey) : bool :=
  match k with
  | KFloat r => one_line r
  | _ => true
  end.

Fixpoint plain (o : pyval) : bool :=
  match o with
  | PyFloat r => one_line r
  | PyList items => forallb plain items
  | PyDict items => forallb (fun kv => plain_key (fst kv) && plain (snd kv)) items
  | _ => true
  end.

Definition plain_kwargs (kw : kwargs_t) : bool := plain (dict_of_kwargs kw).

End Json.

(* ===================================================================== *)
(** * The environment: redis server, logging, stdout, files *)
(* ===================================================================== *)

Module Env.

(** A [redis.StrictRedis] object: its identity and the arguments it was
    built with. *)
Record client : Type := Client {
  client_id : nat;
  client_host : string;
  client_port : Z;
  client_db : Z;
  client_socket_timeout : Z }.

Inductive level : Type := INFO | ERROR.

(** One external call, with the exception it raised if it raised one. *)
Inductive event : Type :=
| EvStrictRedis (c : client) (r : option exn)
| EvPing (c : client) (r : option exn)
| EvRpush (c : client) (key value : string) (r : option exn)
| EvLog (logger : string) (lvl : level) (msg : string)
| EvPrint (text : string) (r : option exn).

Record world : Type := World {
  store : gmap string (list string);  (** the lists of the redis server *)
  files : gmap string string;         (** path to content *)
  stdout : string;                    (** everything written to stdout *)
  trace : list event;                 (** the external calls so far *)
  next_id : nat;                      (** identity of the next object *)
  script : list (option exn) }.       (** answers to the next calls *)

Definition newline : string := String "010"%char EmptyString.

(** [RPUSH key value] on the server: append at the tail, creating the
    list when the key is new. *)
Definition push (key value : string) (st : gmap string (list string))
    : gmap string (list string) :=
  <[key := (default [] (st !! key) ++ [value])%list]> st.

Definition do_push (key value : string) (w : world) : world :=
  World (push key value (store w)) (files w) (stdout w) (trace w)
        (next_id w) (script w).

Definition do_write (text : string) (w : world) : world :=
  World (store w) (files w) (stdout w +:+ text) (trace w)
        (next_id w) (script w).

Definition do_alloc (w : world) : world :=
  World (store w) (files w) (stdout w) (trace w) (S (next_id w)) (script w).

Definition record (ev : event) (w : world) : world :=
  World (store w) (files w) (stdout w) (trace w ++ [ev])%list (next_id w)
        (script w).

(** The answer of the environment to the next external call: the head of
    the script, and success past its end. *)
Definition next_answer (w : world) : option exn := hd None (script w).

(** The world after the environment has answered an external call:
    the call is in the trace with the answer, the answer is used up. *)
Definition answered (ev : option exn -> event) (w : world) : world :=
  World (store w) (files w) (stdout w)
        (trace w ++ [ev (next_answer w)])%list
        (next_id w) (tl (script w)).

(** An external call that can fail: the environment's answer is the
    head of the script (past its end every call succeeds), and the
    effect happens only on success. *)
Definition external (ev : option exn -> event) (effect : world -> world)
    : M world unit :=
  fun w =>
    match next_answer w with
    | None => (Ok tt, effect (answered ev w))
    | Some e => (Raise e, answered ev w)
    end.

(** [redis.StrictRedis(host=.., port=.., db=.., socket_timeout=..)] *)
Definition StrictRedis (host : string) (port db socket_timeout : Z)
    : M world client :=
  do n <- gets next_id;
  let c := Client n host port db socket_timeout in
  do _ <- external (EvStrictRedis c) do_alloc;
  ret c.

(** [c.ping()] *)
Definition ping (c : client) : M world bool :=
  do _ <- external (EvPing c) id;
  ret true.

(** [c.rpush(key, value)]: the length of the list after the push. *)
Definition rpush (c : client) (key value : string) : M world nat :=
  do _ <- external (EvRpush c key value) (do_push key value);
  gets (fun w => length (default [] (store w !! key))).

(** [logging.getLogger(logger).info(msg)] and [.error(msg)]: the record
    is handed to the logging framework, which does not raise. *)
Definition log_info (logger msg : string) : M world unit :=
  modify (record (EvLog logger INFO msg)).
Definition log_error (logger msg : string) : M world unit :=
  modify (record (EvLog logger ERROR msg)).

(** [print(text)] *)
Definition print (text : string) : M world unit :=
  external (EvPrint text) (do_write (text +:+ newline)).

(** [open(path, 'r')]: the file object, here the path of an existing
    file. *)
Definition open (path : string) : M world string :=
  fun w => match files w !! path with
           | Some _ => (Ok path, w)
           | None =>
               (Raise (IOError ("No such file or directory: '" +:+ path +:+ "'")), w)
           end.

(** [f.read()] *)
Definition read (f : string) : M world string :=
  gets (fun w => default "" (files w !! f)).

(** Counting over a trace. *)
Definition is_rpush (ev : event) : bool :=
  match ev with EvRpush _ _ _ _ => true | _ => false end.
Definition is_rpush_ok (ev : event) : bool :=
  match ev with EvRpush _ _ _ None => true | _ => false end.
Definition is_connect (ev : event) : bool :=
  match ev with EvStrictRedis _ _ | EvPing _ _ => true | _ => false end.
Definition is_log (lvl : level) (ev : event) : bool :=
  match ev, lvl with
  | EvLog _ INFO _, INFO | EvLog _ ERROR _, ERROR => true
  | _, _ => false
  end.
Definition is_print (ev : event) : bool :=
  match ev with EvPrint _ _ => true | _ => false end.
Definition count (p : event -> bool) (t : list event) : nat :=
  length (filter (fun ev => p ev = true) t).

End Env.
Import Env.

(* ===================================================================== *)
(** * The sinks *)
(* ===================================================================== *)

Module Sink.
(** [def log(self, **kwargs): pass] *)
Definition log (kwargs : Json.kwargs_t) : M world unit := ret tt.
End Sink.

Module StdoutSink.
(** [print(json.dumps(kwargs))]: the body of [log], run on the dict the
    call has bound to [**kwargs]; the call with its binding is
    [Call.StdoutSink_log]. *)
Definition log (kwargs : Json.kwargs_t) : M world unit :=
  do text <- lift_result (Json.dumps kwargs);
  print text.
End StdoutSink.

Module RedisSink.

(** The attributes of a sink object; [_conn] is unset until
    [_connect] assigns it. *)
Record t : Type := Obj {
  host : string;
  port : Z;
  key : string;
  _conn : option client }.

(** A method runs on the object and the world. *)
Definition state : Type := t * world.

Definition attr {A} (f : t -> A) : M state A := gets (fun s => f (fst s)).

Definition with_conn (self : t) (c : client) : t :=
  Obj (host self) (port self) (key self) (Some c).

(** [self._conn = c] *)
Definition set_conn (c : client) : M state unit :=
  modify (fun s => (with_conn (fst s) c, snd s)).

(** Reading [self._conn] *)
Definition get_conn : M state client :=
  do o <- attr _conn;
  match o with
  | Some c => ret c
  | None => raise (AttributeError "'RedisSink' object has no attribute '_conn'")
  end.

Definition _connect : M state unit :=
  do h <- attr host;
  do p <- attr port;
  do c <- on_snd (StrictRedis h p 0 30);
  do _ <- set_conn c;
  do c' <- get_conn;
  do _ <- on_snd (ping c');
  ret tt.

(** [RedisSink(host, key, port=6379)]: the object exists for the caller
    only when [__init__] returns. *)
Definition __init__ (host key : string) (port : option Z) : M world t :=
  fun w =>
    let self := Obj host (default 6379 port) key None in
    match _connect (self, w) with
    | (Ok _, (self', w')) => (Ok self', w')
    | (Raise e, (_, w')) => (Raise e, w')
    end.

(** [self._conn.rpush(self.key, json.dumps(kwargs))] *)
Definition rpush_event (kwargs : Json.kwargs_t) : M state nat :=
  do c <- get_conn;
  do k <- attr key;
  do text <- lift_result (Json.dumps kwargs);
  on_snd (rpush c k text).

(** ["Redis: reconnected to server {0}:{1}".format(host, port)] *)
Definition reconnected_msg (h : string) (p : Z) : string :=
  "Redis: reconnected to server " +:+ h +:+ ":" +:+ int_repr p.

(** ["Redis: {0}".format(e2)] *)
Definition error_msg (e2 : exn) : string := "Redis: " +:+ str_exn e2.

(** The inner [try] block of [log]. *)
Definition reconnect_and_retry (kwargs : Json.kwargs_t) : M state unit :=
  do _ <- _connect;
  do h <- attr host;
  do p <- attr port;
  do _ <- on_snd (log_info "output" (reconnected_msg h p));
  do _ <- rpush_event kwargs;
  ret tt.

(** The body of [log], run on the dict the call has bound to
    [**kwargs]; the call with its binding is [Call.RedisSink_log]. *)
Definition log (kwargs : Json.kwargs_t) : M state unit :=
  try_except
    (do _ <- rpush_event kwargs; ret tt)
    is_ConnectionError
    (fun e1 =>
       try_except
         (reconnect_and_retry kwargs)
         is_Exception
         (fun e2 => on_snd (log_error "output" (error_msg e2)))).

(** [return self._conn.ping()] *)
Definition ping : M state bool :=
  do c <- get_conn;
  on_snd (Env.ping c).

End RedisSink.

(* ===================================================================== *)
(** * [read_config] *)
(* ===================================================================== *)

Section ReadConfig.

(** [json.loads]: the decoder of the standard library, any function
    from the text to a value or an exception. *)
Variable json_loads : string -> result Json.pyval.

(** [d[k]] for a [str] key [k]: only a [str] key with the same
    characters is equal to it. *)
Fixpoint dict_get (k : Json.pystr) (items : list (Json.pykey * Json.pyval))
    : option Json.pyval :=
  match items with
  | [] => None
  | (Json.KStr k', v) :: rest =>
      if decide (k' = k) then Some v else dict_get k rest
  | _ :: rest => dict_get k rest
  end.

(** [o[k]] for a [str] literal [k] *)
Definition subscript (o : Json.pyval) (k : string) : result Json.pyval :=
  match o with
  | Json.PyDict items =>
      match dict_get (Json.str k) items with
      | Some v => Ok v
      | None => Raise (KeyError k)
      end
  | Json.PyList _ =>
      Raise (TypeError "list indices must be integers or slices, not str")
  | Json.PyStr _ => Raise (TypeError "string indices must be integers")
  | _ => Raise (TypeError "object is not subscriptable")
  end.

Definition read_config (cfgfile : string)
    : M world (Json.pyval * Json.pyval) :=
  do f <- open cfgfile;
  do cfg <-
    try_except
      (do content <- read f; lift_result (json_loads content))
      is_ValueError
      (fun e =>
         do _ <- log_error "root"
                   ("Could not read config file: " +:+ str_exn e);
         raise (SystemExit (-1)));
  do i <- lift_result (subscript cfg "input");
  do o <- lift_result (subscript cfg "output");
  ret (i, o).

End ReadConfig.

(* ===================================================================== *)
(** * A decoder to run [read_config] with *)
(* ===================================================================== *)

(** [read_config] is stated for any decoder.  To run it on concrete files
    this section gives one for the ASCII documents of JSON whose numbers
    are integers: objects, arrays, strings with their escapes, integers,
    [true], [false] and [null].  A document outside that fragment is
    answered with [ValueError]. *)
Module Decoder.

Definition ch (c : ascii) (s : string) : bool :=
  match s with
  | String a EmptyString => Ascii.eqb c a
  | _ => false
  end.

Definition is_quote (c : ascii) : bool := Ascii.eqb c "034"%char.

Definition is_ws (c : ascii) : bool :=
  let n := N_of_ascii c in
  ((n =? 32) || (n =? 9) || (n =? 10) || (n =? 13))%N.

Fixpoint ws (cs : list ascii) : list ascii :=
  match cs with
  | c :: r => if is_ws c then ws r else cs
  | [] => []
  end.

Definition digit (c : ascii) : option Z :=
  let n := N_of_ascii c in
  if ((48 <=? n) && (n <=? 57))%N then Some (Z.of_N n - 48) else None.

Definition hexval (c : ascii) : option N :=
  let n := N_of_ascii c in
  (if (48 <=? n) && (n <=? 57) then Some (n - 48)
   else if (97 <=? n) && (n <=? 102) then Some (n - 87)
   else if (65 <=? n) && (n <=? 70) then Some (n - 55)
   else None)%N.

(** The character a one-letter escape stands for. *)
Definition unescape (c : ascii) : option N :=
  if is_quote c then Some 34%N
  else if ch c "\" then Some 92%N
  else if ch c "/" then Some 47%N
  else if ch c "b" then Some 8%N
  else if ch c "f" then Some 12%N
  else if ch c "n" then Some 10%N
  else if ch c "r" then Some 13%N
  else if ch c "t" then Some 9%N
  else None.

(** The rest of a string after its opening quote. *)
Fixpoint string_body (cs : list ascii) (acc : Json.pystr)
    : option (Json.pystr * list ascii) :=
  match cs with
  | [] => None
  | c :: r =>
      if is_quote c then Some (acc, r)
      else if ch c "\" then
        match r with
        | e :: r' =>
            if ch e "u" then
              match r' with
              | h1 :: h2 :: h3 :: h4 :: r'' =>
                  match hexval h1, hexval h2, hexval h3, hexval h4 with
                  | Some a, Some b, Some c', Some d =>
                      let n := (a * 4096 + b * 256 + c' * 16 + d)%N in
                      if ((55296 <=? n) && (n <=? 57343))%N then None
                      else string_body r'' (acc ++ [n])%list
                  | _, _, _, _ => None
                  end
              | _ => None
              end
            else
              match unescape e with
              | Some n => string_body r' (acc ++ [n])%list
              | None => None
              end
        | [] => None
        end
      else
        let n := N_of_ascii c in
        if ((n <? 32) || (127 <? n))%N then None
        else string_body r (acc ++ [n])%list
  end.

Fixpoint digits (cs : list ascii) (acc : Z) : Z * list ascii :=
  match cs with
  | c :: r =>
      match digit c with
      | Some d => digits r (10 * acc + d)
      | None => (acc, cs)
      end
  | [] => (acc, [])
  end.

(** An integer: [0] or a non-zero digit followed by digits; a fraction
    or exponent after it puts the document outside the fragment. *)
Definition natural (cs : list ascii) : option (Z * list ascii) :=
  match cs with
  | c :: r =>
      match digit c with
      | Some d =>
          let (n, rest) := if (d =? 0)%Z then (0, r) else digits r d in
          match rest with
          | x :: _ =>
              if ch x "." || ch x "e" || ch x "E" then None
              else Some (n, rest)
          | [] => Some (n, rest)
          end
      | None => None
      end
  | [] => None
  end.

Fixpoint starts_with (p : string) (cs : list ascii) : option (list ascii) :=
  match p, cs with
  | EmptyString, _ => Some cs
  | String a p', c :: r => if Ascii.eqb a c then starts_with p' r else None
  | String _ _, [] => None
  end.

(** [d[k] = v] on the item list of a dict: a key already there keeps its
    place and takes the new value. *)
Fixpoint dict_set (k : Json.pystr) (v : Json.pyval)
    (items : list (Json.pykey * Json.pyval)) : list (Json.pykey * Json.pyval) :=
  match items with
  | [] => [(Json.KStr k, v)]
  | (Json.KStr k', v') :: rest =>
      if decide (k' = k) then (Json.KStr k', v) :: rest
      else (Json.KStr k', v') :: dict_set k v rest
  | item :: rest => item :: dict_set k v rest
  end.

(** What the decoder is reading: a value, the elements of an array after
    [acc], or the members of an object after [acc]. *)
Inductive task : Type :=
| TValue
| TElements (acc : list Json.pyval)
| TMembers (acc : list (Json.pykey * Json.pyval)).

Fixpoint parse (fuel : nat) (t : task) (cs : list ascii)
    : option (Json.pyval * list ascii) :=
  match fuel with
  | O => None
  | S fuel' =>
      match t with
      | TValue =>
          match cs with
          | [] => None
          | c :: r =>
              if ch c "[" then
                match ws r with
                | x :: r' =>
                    if ch x "]" then Some (Json.PyList [], r')
                    else parse fuel' (TElements []) (x :: r')
                | [] => None
                end
              else if ch c "{" then
                match ws r with
                | x :: r' =>
                    if ch x "}" then Some (Json.PyDict [], r')
                    else parse fuel' (TMembers []) (x :: r')
                | [] => None
                end
              else if is_quote c then
                match string_body r [] with
                | Some (s, r') => Some (Json.PyStr s, r')
                | None => None
                end
              else if ch c "-" then
                match natural r with
                | Some (n, r') => Some (Json.PyInt (- n), r')
                | None => None
                end
              else
                match starts_with "true" cs, starts_with "false" cs,
                      starts_with "null" cs with
                | Some r', _, _ => Some (Json.PyBool true, r')
                | _, Some r', _ => Some (Json.PyBool false, r')
                | _, _, Some r' => Some (Json.PyNone, r')
                | None, None, None =>
                    match natural cs with
                    | Some (n, r') => Some (Json.PyInt n, r')
                    | None => None
                    end
                end
          end
      | TElements acc =>
          match parse fuel' TValue cs with
          | Some (v, r) =>
              match ws r with
              | x :: r' =>
                  if ch x "," then parse fuel' (TElements (acc ++ [v])%list) (ws r')
                  else if ch x "]" then Some (Json.PyList (acc ++ [v])%list, r')
                  else None
              | [] => None
              end
          | None => None
          end
      | TMembers acc =>
          match cs with
          | q :: r0 =>
              if is_quote q then
                match string_body r0 [] with
                | Some (k, r1) =>
                    match ws r1 with
                    | colon :: r2 =>
                        if ch colon ":" then
                          match parse fuel' TValue (ws r2) with
                          | Some (v, r3) =>
                              match ws r3 with
                              | x :: r4 =>
                                  if ch x "," then
                                    parse fuel' (TMembers (dict_set k v acc)) (ws r4)
                                  else if ch x "}" then
                                    Some (Json.PyDict (dict_set k v acc), r4)
                                  else None
                              | [] => None
                              end
                          | None => None
                          end
                        else None
                    | [] => None
                    end
                | None => None
                end
              else None
          | [] => None
          end
      end
  end.

Definition loads (s : string) : result Json.pyval :=
  let cs := list_ascii_of_string s in
  match parse (2 * length cs + 2) TValue (ws cs) with
  | Some (v, r) =>
      match ws r with
      | [] => Ok v
      | _ :: _ => Raise (ValueError "Extra data")
      end
  | None => Raise (ValueError "Expecting value")
  end.

End Decoder.

(* ===================================================================== *)
(** * Concrete sinks, events and worlds *)
(* ===================================================================== *)

Module Example.

(** [log(level="error", msg="disk full")] *)
Definition event : Json.kwargs_t :=
  [(Json.str "level", Json.PyStr (Json.str "error"));
   (Json.str "msg", Json.PyStr (Json.str "disk full"))].

(** [log(obj=object())]: a field [json.dumps] cannot serialize. *)
Definition opaque_event : Json.kwargs_t :=
  [(Json.str "obj", Json.PyObject "object")].

(** The text [{"level": "error", "msg": "disk full"}], as [json.dumps]
    writes it, and the same object without the blanks. *)
Definition event_text : string :=
  "{" +:+ dquote +:+ "level" +:+ dquote +:+ ": " +:+ dquote +:+ "error" +:+ dquote
  +:+ ", " +:+ dquote +:+ "msg" +:+ dquote +:+ ": " +:+ dquote +:+ "disk full"
  +:+ dquote +:+ "}".
Definition event_text_compact : string :=
  "{" +:+ dquote +:+ "level" +:+ dquote +:+ ":" +:+ dquote +:+ "error" +:+ dquote
  +:+ "," +:+ dquote +:+ "msg" +:+ dquote +:+ ":" +:+ dquote +:+ "disk full"
  +:+ dquote +:+ "}".

(** A process that has touched nothing yet, with the answers the
    environment will give. *)
Definition boot (answers : list (option exn)) : world :=
  World ∅ ∅ "" [] 0 answers.

(** The first client a process builds for [localhost:6379]. *)
Definition conn0 : client := Client 0 "localhost" 6379 0 30.

(** [RedisSink(host="localhost", port=6379, key="events")] once built,
    and the world it was built in. *)
Definition sink : RedisSink.t :=
  RedisSink.Obj "localhost" 6379 "events" (Some conn0).
Definition built (answers : list (option exn)) : world :=
  World ∅ ∅ "" [EvStrictRedis conn0 None; EvPing conn0 None] 1 answers.

Definition refused : exn := ConnectionError "Connection refused".
Definition reset : exn := ConnectionError "Connection reset by peer".
Definition wrongtype : exn :=
  ResponseError "WRONGTYPE Operation against a key holding the wrong kind of value".

(** The second client, built by a reconnect, and the sink that holds it. *)
Definition conn1 : client := Client 1 "localhost" 6379 0 30.
Definition sink1 : RedisSink.t :=
  RedisSink.Obj "localhost" 6379 "events" (Some conn1).

Definition info_line : Env.event :=
  EvLog "output" INFO "Redis: reconnected to server localhost:6379".

(** Healthy connection: the world after [log(level="error", ...)]. *)
Definition appended : world :=
  World {["events" := [event_text]]} ∅ ""
        [EvStrictRedis conn0 None; EvPing conn0 None;
         EvRpush conn0 "events" event_text None] 1 [].

(** The connection was reset: the world after the push that failed,
    with the answers still to come. *)
Definition after_reset (answers : list (option exn)) : world :=
  World ∅ ∅ ""
        [EvStrictRedis conn0 None; EvPing conn0 None;
         EvRpush conn0 "events" event_text (Some reset)] 1 answers.

(** ... after the reconnect, ... *)
Definition after_reconnect (answers : list (option exn)) : world :=
  World ∅ ∅ ""
        [EvStrictRedis conn0 None; EvPing conn0 None;
         EvRpush conn0 "events" event_text (Some reset);
         EvStrictRedis conn1 None; EvPing conn1 None] 2 answers.

(** ... and after the retried push. *)
Definition after_retry : world :=
  World {["events" := [event_text]]} ∅ ""
        [EvStrictRedis conn0 None; EvPing conn0 None;
         EvRpush conn0 "events" event_text (Some reset);
         EvStrictRedis conn1 None; EvPing conn1 None;
         info_line;
         EvRpush conn1 "events" event_text None] 2 [].

(** The reconnect was refused at the ping. *)
Definition after_refused : world :=
  World ∅ ∅ ""
        [EvStrictRedis conn0 None; EvPing conn0 None;
         EvRpush conn0 "events" event_text (Some reset);
         EvStrictRedis conn1 None; EvPing conn1 (Some refused)] 2 [].

(** A world whose only file is [logstash.json] with the given text. *)
Definition with_config (content : string) : world :=
  World ∅ {["logstash.json" := content]} "" [] 0 [].

End Example.

(* ===================================================================== *)
(** * Events that can be serialized; answers still to come *)
(* ===================================================================== *)

Module Payload.

(** The types [json.dumps] has an encoding for: every value but an object
    of another type, every dict key but one of another type. *)
Definition serializable_key (k : Json.pykey) : bool :=
  match k with
  | Json.KObject _ => false
  | _ => true
  end.

Fixpoint serializable (o : Json.pyval) : bool :=
  match o with
  | Json.PyObject _ => false
  | Json.PyList items => forallb serializable items
  | Json.PyDict items =>
      forallb (fun kv => serializable_key (fst kv) && serializable (snd kv)) items
  | _ => true
  end.

Definition serializable_kwargs (kw : Json.kwargs_t) : bool :=
  serializable (Json.dict_of_kwargs kw).

(** A text of printable ASCII characters, from the blank to the tilde. *)
Fixpoint ascii_text (s : string) : bool :=
  match s with
  | EmptyString => true
  | String a s' =>
      ((32 <=? N_of_ascii a)%N && (N_of_ascii a <=? 126)%N) && ascii_text s'
  end.

(** The floats of a value carry the text of a [float.__repr__]: digits,
    sign, point, exponent, or the letters of [nan] and [inf]. *)
Definition ascii_key (k : Json.pykey) : bool :=
  match k with
  | Json.KFloat r => ascii_text r
  | _ => true
  end.

Fixpoint ascii_floats (o : Json.pyval) : bool :=
  match o with
  | Json.PyFloat r => ascii_text r
  | Json.PyList items => forallb ascii_floats items
  | Json.PyDict items =>
      forallb (fun kv => ascii_key (fst kv) && ascii_floats (snd kv)) items
  | _ => true
  end.

Definition ascii_floats_kwargs (kw : Json.kwargs_t) : bool :=
  ascii_floats (Json.dict_of_kwargs kw).

End Payload.

(** The answer of the environment to the external call made [n] calls
    from now (success past the end of the script). *)
Definition answer_at (n : nat) (w : world) : option exn := nth n (script w) None.

(** The first exception among the answers to the three calls of the
    retry path: building the client, the ping, the second push. *)
Definition retry_error (a1 a2 a3 : option exn) : option exn :=
  match a1, a2 with
  | Some e, _ => Some e
  | None, Some e => Some e
  | None, None => a3
  end.

(** A decision table to compare [RedisSink.log] with: what a call
    returns or raises, read off the answers to its first push and to the
    calls of the retry path. *)
Definition log_result (a0 a1 a2 a3 : option exn) : result unit :=
  match a0 with
  | None => Ok tt
  | Some e1 =>
      if is_ConnectionError e1 then
        match retry_error a1 a2 a3 with
        | None => Ok tt
        | Some e2 => if is_Exception e2 then Ok tt else Raise e2
        end
      else Raise e1
  end.

(* ===================================================================== *)
(** * Calling [log]: the binding of the keyword arguments *)
(* ===================================================================== *)

Module Limits.

(** [int.__repr__] converts an integer of at most 4300 decimal digits
    (the default of [sys.get_int_max_str_digits()]); beyond that the
    interpreter raises [ValueError] instead of giving the text that
    [int_repr] stands for, and so does [json.dumps].  The theorems about
    a call of [log] that serializes its event are stated for events
    within this limit.  The other limits of the interpreter (the memory,
    the recursion depth left to [json.dumps] for nested values) depend on
    the process, not on the event, and are not part of the model. *)
Definition int_fits (z : Z) : bool := (Z.abs z <? 10 ^ 4300)%Z.

Definition key_fits (k : Json.pykey) : bool :=
  match k with
  | Json.KInt z => int_fits z
  | _ => true
  end.

(** Every integer of a value, as a value or as a dict key, is within the
    limit. *)
Fixpoint ints_fit (o : Json.pyval) : bool :=
  match o with
  | Json.PyInt z => int_fits z
  | Json.PyList items => forallb ints_fit items
  | Json.PyDict items =>
      forallb (fun kv => key_fits (fst kv) && ints_fit (snd kv)) items
  | _ => true
  end.

Definition ints_fit_kwargs (kw : Json.kwargs_t) : bool :=
  ints_fit (Json.dict_of_kwargs kw).

End Limits.

Module Call.

(** Whether one of the keyword arguments has the name [k]. *)
Fixpoint has_name (k : Json.pystr) (fields : Json.kwargs_t) : bool :=
  match fields with
  | [] => false
  | (k', _) :: rest => if decide (k' = k) then true else has_name k rest
  end.

Fixpoint distinct_names (fields : Json.kwargs_t) : bool :=
  match fields with
  | [] => true
  | (k, _) :: rest => negb (has_name k rest) && distinct_names rest
  end.

(** The keyword arguments a call of [sink.log] can bind to the
    parameters of [def log(self, **kwargs)]: no name comes twice, and
    none is [self], which the bound method already passes. *)
Definition binds (fields : Json.kwargs_t) : bool :=
  distinct_names fields && negb (has_name (Json.str "self") fields).

(** The binding itself: the dict [**kwargs] receives, or the [TypeError]
    of the call, raised before the body of the method runs. *)
Definition bind_kwargs (fields : Json.kwargs_t) : result Json.kwargs_t :=
  if negb (distinct_names fields) then
    Raise (TypeError "log() got multiple values for keyword argument")
  else if has_name (Json.str "self") fields then
    Raise (TypeError "log() got multiple values for argument 'self'")
  else Ok fields.

(** [sink.log] called with the keyword arguments [fields] on a
    [StdoutSink]: the binding, then the body. *)
Definition StdoutSink_log (fields : Json.kwargs_t) : M world unit :=
  do kwargs <- lift_result (bind_kwargs fields);
  StdoutSink.log kwargs.

(** [sink.log] called with the keyword arguments [fields] on a
    [RedisSink]: the binding, then the body. *)
Definition RedisSink_log (fields : Json.kwargs_t) : M RedisSink.state unit :=
  do kwargs <- lift_result (bind_kwargs fields);
  RedisSink.log kwargs.

End Call.

Module Scenario.

(** [log(self=1)]: a field named like the first parameter of the method. *)
Definition self_event : Json.kwargs_t := [(Json.str "self", Json.PyInt 1)].

(** The text [{"self": 1}] that [json.dumps] has for these fields. *)
Definition self_text : string :=
  "{" +:+ dquote +:+ "self" +:+ dquote +:+ ": 1}".

(** The socket timed out while the reply was read. *)
Definition timeout : exn := TimeoutError "Timeout reading from socket".

End Scenario.

(* ===================================================================== *)
(** * What the external calls do *)
(* ===================================================================== *)

Lemma count_app (p : event -> bool) (a b : list event) :
  count p (a ++ b) = (count p a + count p b)%nat.
Proof. unfold count. by rewrite filter_app, length_app. Qed.

Lemma count_nil (p : event -> bool) : count p [] = 0%nat.
Proof. reflexivity. Qed.

Lemma count_one (p : event -> bool) (ev : event) :
  count p [ev] = if p ev then 1%nat else 0%nat.
Proof.
  unfold count. destruct (p ev) eqn:E.
  - rewrite filter_cons_True by done. reflexivity.
  - rewrite filter_cons_False by (rewrite E; discriminate). reflexivity.
Qed.

Lemma external_cases ev effect w :
  external ev effect w =
    match next_answer w with
    | None => (Ok tt, effect (answered ev w))
    | Some e => (Raise e, answered ev w)
    end.
Proof. reflexivity. Qed.

Lemma rpush_cases c k v w :
  rpush c k v w =
    match next_answer w with
    | None =>
        let w1 := do_push k v (answered (EvRpush c k v) w) in
        (Ok (length (default [] (store w1 !! k))), w1)
    | Some e => (Raise e, answered (EvRpush c k v) w)
    end.
Proof.
  unfold rpush, bind. rewrite external_cases.
  destruct (next_answer w); reflexivity.
Qed.

(** A push that succeeds appends the value to the list and records one
    event; a push that fails leaves the lists alone. *)
Lemma rpush_ok c k v w n w1 :
  rpush c k v w = (Ok n, w1) ->
  trace w1 = (trace w ++ [EvRpush c k v None])%list /\
  store w1 = push k v (store w) /\
  stdout w1 = stdout w /\ files w1 = files w /\ next_id w1 = next_id w /\
  next_answer w = None /\ script w1 = tl (script w).
Proof.
  rewrite rpush_cases. destruct (next_answer w) eqn:E; [discriminate|].
  intros [= _ <-]. unfold answered. simpl. rewrite E. done.
Qed.

Lemma rpush_raise c k v w e w1 :
  rpush c k v w = (Raise e, w1) ->
  trace w1 = (trace w ++ [EvRpush c k v (Some e)])%list /\
  store w1 = store w /\
  stdout w1 = stdout w /\ files w1 = files w /\ next_id w1 = next_id w /\
  next_answer w = Some e /\ script w1 = tl (script w).
Proof.
  rewrite rpush_cases. destruct (next_answer w) eqn:E; [|discriminate].
  intros [= <- <-]. unfold answered. simpl. rewrite E. done.
Qed.

Lemma push_lookup k v (st : gmap string (list string)) :
  push k v st !! k = Some (default [] (st !! k) ++ [v])%list.
Proof. unfold push. apply lookup_insert_eq. Qed.

Lemma push_lookup_ne k k' v (st : gmap string (list string)) :
  k <> k' -> push k v st !! k' = st !! k'.
Proof. intros. unfold push. by apply lookup_insert_ne. Qed.

(* ===================================================================== *)
(** * The steps of [RedisSink] *)
(* ===================================================================== *)

Import RedisSink.

(** The client [_connect] builds in world [w] for the sink [s]. *)
Lemma connect_cases (s : RedisSink.t) (w : world) :
  let c := Client (next_id w) (host s) (port s) 0 30 in
  let w1 := answered (EvStrictRedis c) w in
  let w2 := answered (EvPing c) (do_alloc w1) in
  _connect (s, w) =
    match next_answer w with
    | Some e => (Raise e, (s, w1))
    | None =>
        match hd None (tl (script w)) with
        | Some e => (Raise e, (with_conn s c, w2))
        | None => (Ok tt, (with_conn s c, w2))
        end
    end.
Proof.
  unfold _connect, bind, attr, gets, on_snd, StrictRedis, set_conn, modify,
    get_conn, Env.ping, ret, external, bind, gets, answered, next_answer. simpl.
  destruct (hd None (script w)) eqn:E1; simpl; [reflexivity|].
  destruct (hd None (tl (script w))) eqn:E2; reflexivity.
Qed.

Lemma rpush_event_cases kw (s : RedisSink.t) (w : world) :
  rpush_event kw (s, w) =
    match _conn s with
    | None =>
        (Raise (AttributeError "'RedisSink' object has no attribute '_conn'"),
         (s, w))
    | Some c =>
        match Json.dumps kw with
        | Raise e => (Raise e, (s, w))
        | Ok text => let (r, w1) := rpush c (key s) text w in (r, (s, w1))
        end
    end.
Proof.
  unfold rpush_event, bind, get_conn, attr, gets, lift_result, on_snd, ret,
    raise, bind. simpl.
  destruct (_conn s); simpl; [|reflexivity].
  destruct (Json.dumps kw); reflexivity.
Qed.

Lemma rpush_event_ok kw (s : RedisSink.t) w n st1 :
  rpush_event kw (s, w) = (Ok n, st1) ->
  exists c text,
    _conn s = Some c /\ Json.dumps kw = Ok text /\ fst st1 = s /\
    rpush c (key s) text w = (Ok n, snd st1).
Proof.
  rewrite rpush_event_cases.
  destruct (_conn s) as [c|]; [|discriminate].
  destruct (Json.dumps kw) as [text|]; [|discriminate].
  destruct (rpush c (key s) text w) as [r w1] eqn:E.
  intros [= -> <-]. exists c, text. done.
Qed.

(** A failed attempt leaves the sink and the lists as they were; it adds
    nothing to the trace, or the one push that failed. *)
Lemma rpush_event_raise kw (s : RedisSink.t) w e st1 :
  rpush_event kw (s, w) = (Raise e, st1) ->
  fst st1 = s /\ store (snd st1) = store w /\ stdout (snd st1) = stdout w /\
  (snd st1 = w /\ (_conn s = None \/ Json.dumps kw = Raise e) \/
   exists c text,
     _conn s = Some c /\ Json.dumps kw = Ok text /\
     rpush c (key s) text w = (Raise e, snd st1) /\
     trace (snd st1) = (trace w ++ [EvRpush c (key s) text (Some e)])%list).
Proof.
  rewrite rpush_event_cases.
  destruct (_conn s) as [c|] eqn:Ec.
  - destruct (Json.dumps kw) as [text|e'] eqn:Ed.
    + destruct (rpush c (key s) text w) as [r w1] eqn:E.
      intros [= -> <-]. simpl.
      destruct (rpush_raise _ _ _ _ _ _ E) as (Ht & Hs & Ho & _).
      repeat split; try done. right. exists c, text. done.
    + intros [= -> <-]. simpl. repeat split; try done. left. split; [done|]. by right.
  - intros [= <- <-]. simpl. repeat split; try done. left. split; [done|]. by left.
Qed.

Lemma rpush_event_raise_count kw (s : RedisSink.t) w e st1 (p : event -> bool) :
  (forall c k v x, p (EvRpush c k v (Some x)) = false) ->
  rpush_event kw (s, w) = (Raise e, st1) ->
  count p (trace (snd st1)) = count p (trace w).
Proof.
  intros Hp H. destruct (rpush_event_raise _ _ _ _ _ H) as (_ & _ & _ & [[-> _]|Hc]).
  - reflexivity.
  - destruct Hc as (c & text & _ & _ & _ & ->).
    rewrite count_app, count_one, Hp. lia.
Qed.

(** [_connect] touches neither the configuration of the sink nor the
    lists, and adds only its own calls to the trace. *)
Lemma connect_inv (s : RedisSink.t) w r st1 :
  _connect (s, w) = (r, st1) ->
  host (fst st1) = host s /\ port (fst st1) = port s /\ key (fst st1) = key s /\
  store (snd st1) = store w /\ stdout (snd st1) = stdout w /\
  forall p : event -> bool,
    (forall c x, p (EvStrictRedis c x) = false) ->
    (forall c x, p (EvPing c x) = false) ->
    count p (trace (snd st1)) = count p (trace w).
Proof.
  rewrite connect_cases. cbv zeta.
  destruct (next_answer w) eqn:E1; [|destruct (hd None (tl (script w))) eqn:E2];
    intros [= <- <-]; simpl; repeat split; try done;
    intros p H1 H2; rewrite ?count_app, !count_one, ?H1, ?H2; lia.
Qed.

Lemma connect_ok (s : RedisSink.t) w st2 :
  _connect (s, w) = (Ok tt, st2) ->
  let c := Client (next_id w) (host s) (port s) 0 30 in
  fst st2 = with_conn s c /\
  trace (snd st2) = (trace w ++ [EvStrictRedis c None; EvPing c None])%list /\
  store (snd st2) = store w /\
  next_answer w = None /\ hd None (tl (script w)) = None /\
  script (snd st2) = tl (tl (script w)).
Proof.
  rewrite connect_cases. cbv zeta.
  destruct (next_answer w) eqn:E1; [discriminate|].
  destruct (hd None (tl (script w))) eqn:E2; [discriminate|].
  intros [= <-]. unfold answered, do_alloc, next_answer in *. simpl.
  rewrite E1, E2, <- app_assoc. done.
Qed.

Lemma connect_raise (s : RedisSink.t) w e st2 :
  _connect (s, w) = (Raise e, st2) ->
  let c := Client (next_id w) (host s) (port s) 0 30 in
  store (snd st2) = store w /\
  (next_answer w = Some e /\ fst st2 = s /\
   trace (snd st2) = (trace w ++ [EvStrictRedis c (Some e)])%list
   \/
   next_answer w = None /\ hd None (tl (script w)) = Some e /\
   fst st2 = with_conn s c /\
   trace (snd st2) = (trace w ++ [EvStrictRedis c None; EvPing c (Some e)])%list).
Proof.
  rewrite connect_cases. cbv zeta.
  destruct (next_answer w) eqn:E1.
  - intros [= <- <-]. unfold answered, next_answer in *. simpl. rewrite E1.
    split; [done|]. by left.
  - destruct (hd None (tl (script w))) eqn:E2; [|discriminate].
    intros [= <- <-]. unfold answered, do_alloc, next_answer in *. simpl.
    rewrite E1, E2, <- app_assoc. split; [done|]. by right.
Qed.

Lemma log_unfold kw (st : RedisSink.state) :
  RedisSink.log kw st =
    match rpush_event kw st with
    | (Ok _, st1) => (Ok tt, st1)
    | (Raise e1, st1) =>
        if is_ConnectionError e1 then
          match reconnect_and_retry kw st1 with
          | (Ok _, st2) => (Ok tt, st2)
          | (Raise e2, st2) =>
              if is_Exception e2 then
                (Ok tt, (fst st2, record (EvLog "output" ERROR (error_msg e2)) (snd st2)))
              else (Raise e2, st2)
          end
        else (Raise e1, st1)
    end.
Proof.
  unfold RedisSink.log, try_except, bind, ret.
  destruct (rpush_event kw st) as [[n|e1] st1]; [reflexivity|].
  destruct (is_ConnectionError e1); [|reflexivity].
  destruct (reconnect_and_retry kw st1) as [[[]|e2] st2]; [reflexivity|].
  destruct (is_Exception e2); reflexivity.
Qed.

Lemma retry_unfold kw (st1 : RedisSink.state) :
  reconnect_and_retry kw st1 =
    match _connect st1 with
    | (Raise e, st2) => (Raise e, st2)
    | (Ok _, st2) =>
        let msg := reconnected_msg (host (fst st2)) (port (fst st2)) in
        match rpush_event kw (fst st2, record (EvLog "output" INFO msg) (snd st2)) with
        | (Ok _, st3) => (Ok tt, st3)
        | (Raise e, st3) => (Raise e, st3)
        end
    end.
Proof.
  unfold reconnect_and_retry, bind, attr, gets, on_snd, log_info, modify, ret.
  destruct (_connect st1) as [[[]|e] [s2 w2]]; [|reflexivity]. simpl.
  destruct (rpush_event kw _) as [[n|e] st3]; reflexivity.
Qed.

(* ===================================================================== *)
(** * The call of [log]: the binding, then the body *)
(* ===================================================================== *)

Lemma bind_kwargs_binds fields :
  Call.binds fields = true -> Call.bind_kwargs fields = Ok fields.
Proof.
  unfold Call.binds, Call.bind_kwargs. intros H.
  apply andb_true_iff in H as [Hd Hs]. apply negb_true_iff in Hs.
  by rewrite Hd, Hs.
Qed.

Lemma bind_kwargs_fails fields :
  Call.binds fields = false ->
  exists m, Call.bind_kwargs fields = Raise (TypeError m).
Proof.
  unfold Call.binds, Call.bind_kwargs.
  destruct (Call.distinct_names fields); simpl; [|eauto].
  destruct (Call.has_name _ fields); [eauto|discriminate].
Qed.

Lemma bind_kwargs_ok_inv fields kwargs :
  Call.bind_kwargs fields = Ok kwargs ->
  Call.binds fields = true /\ kwargs = fields.
Proof.
  destruct (Call.binds fields) eqn:Hb.
  - rewrite (bind_kwargs_binds _ Hb). by intros [= <-].
  - destruct (bind_kwargs_fails _ Hb) as [m ->]. discriminate.
Qed.

(** A call that binds its fields is the body run on them. *)
Lemma call_RedisSink_log_binds fields (st : RedisSink.state) :
  Call.binds fields = true ->
  Call.RedisSink_log fields st = RedisSink.log fields st.
Proof.
  intros Hb. unfold Call.RedisSink_log, bind, lift_result.
  by rewrite (bind_kwargs_binds _ Hb).
Qed.

Lemma call_StdoutSink_log_binds fields (w : world) :
  Call.binds fields = true ->
  Call.StdoutSink_log fields w = StdoutSink.log fields w.
Proof.
  intros Hb. unfold Call.StdoutSink_log, bind, lift_result.
  by rewrite (bind_kwargs_binds _ Hb).
Qed.


Lemma call_StdoutSink_log_fails fields (w : world) :
  Call.binds fields = false ->
  exists m, Call.StdoutSink_log fields w = (Raise (TypeError m), w).
Proof.
  intros Hb. destruct (bind_kwargs_fails _ Hb) as [m Hm]. exists m.
  unfold Call.StdoutSink_log, bind, lift_result. by rewrite Hm.
Qed.

(* ===================================================================== *)
(** * [RedisSink.log]: the healthy path and the retry path *)
(* ===================================================================== *)

(** C4, as the code has it.  [log] is called with fields it can bind (no
    name twice, none named [self]) whose integers are within the
    conversion limit, and the first append succeeds.  Then the call
    returns normally and has done exactly one thing: one [RPUSH] of the
    JSON text of the event to the list named by the configured key.  The
    trace grows by that single call, so there is no reconnect and no
    second append, and the list grows by the text at its tail. *)
Theorem RedisSink_log_healthy kw (s : RedisSink.t) (w : world) n st1 :
  Call.binds kw = true ->
  Limits.ints_fit_kwargs kw = true ->
  rpush_event kw (s, w) = (Ok n, st1) ->
  exists c text,
    _conn s = Some c /\ Json.dumps kw = Ok text /\
    Call.RedisSink_log kw (s, w) = (Ok tt, st1) /\
    fst st1 = s /\
    trace (snd st1) = (trace w ++ [EvRpush c (key s) text None])%list /\
    count is_rpush (trace (snd st1)) = S (count is_rpush (trace w)) /\
    count is_connect (trace (snd st1)) = count is_connect (trace w) /\
    store (snd st1) !! key s = Some (default [] (store w !! key s) ++ [text])%list /\
    forall k, k <> key s -> store (snd st1) !! k = store w !! k.
Proof.
  intros Hb _ H. rewrite (call_RedisSink_log_binds _ _ Hb), log_unfold, H.
  destruct (rpush_event_ok _ _ _ _ _ H) as (c & text & Hc & Hd & Hs & Hr).
  destruct (rpush_ok _ _ _ _ _ _ Hr) as (Ht & Hst & _).
  exists c, text. rewrite Ht, Hst, !count_app, !count_one. simpl.
  repeat split; try done; try lia.
  - apply push_lookup.
  - intros k Hk. by apply push_lookup_ne.
Qed.

(** C4, as the spec has it, fails: the connection is healthy (the server
    answers every call, and the same sink appends the example event) and
    the event [{"self": 1}] has a JSON text, yet [log(self=1)] appends
    nothing.  The field collides with the first parameter of
    [def log(self, **kwargs)]: the call raises [TypeError] before the
    body runs, and sink and world are as before. *)
Lemma RedisSink_log_self_field :
  let st := (Example.sink, Example.built []) in
  let out := Call.RedisSink_log Scenario.self_event st in
  script (Example.built []) = [] /\
  Call.RedisSink_log Example.event st
    = (Ok tt, (Example.sink, Example.appended)) /\
  Json.dumps Scenario.self_event = Ok Scenario.self_text /\
  fst out = Raise (TypeError "log() got multiple values for argument 'self'") /\
  snd out = st /\
  count is_rpush (trace (snd (snd out))) = 0%nat.
Proof. vm_compute. repeat split; reflexivity. Qed.

(** C5, as the code has it.  The reconnect scenario, for a call that
    binds its fields, their integers within the conversion limit: the
    first append fails with a redis [ConnectionError], [_connect]
    succeeds and the append made on the new connection succeeds.  Then
    the call returns normally; the trace grows by
    the failed push, the two calls of [_connect], one info line
    "Redis: reconnected to server host:port" and the retried push, so
    there is exactly one successful append and exactly one info line. *)
Theorem RedisSink_log_reconnect kw (s : RedisSink.t) (w : world) e1 st1 st2 n st3 :
  Call.binds kw = true ->
  Limits.ints_fit_kwargs kw = true ->
  rpush_event kw (s, w) = (Raise e1, st1) ->
  is_ConnectionError e1 = true ->
  _connect st1 = (Ok tt, st2) ->
  rpush_event kw
    (fst st2, record (EvLog "output" INFO (reconnected_msg (host s) (port s)))
                     (snd st2)) = (Ok n, st3) ->
  Call.RedisSink_log kw (s, w) = (Ok tt, st3) /\
  count is_rpush_ok (trace (snd st3)) = S (count is_rpush_ok (trace w)) /\
  count (is_log INFO) (trace (snd st3)) = S (count (is_log INFO) (trace w)) /\
  count (is_log ERROR) (trace (snd st3)) = count (is_log ERROR) (trace w) /\
  exists c c2 text,
    _conn s = Some c /\ _conn (fst st3) = Some c2 /\ Json.dumps kw = Ok text /\
    trace (snd st3) =
      (trace w ++ [EvRpush c (key s) text (Some e1);
                   EvStrictRedis c2 None; EvPing c2 None;
                   EvLog "output" INFO (reconnected_msg (host s) (port s));
                   EvRpush c2 (key s) text None])%list /\
    store (snd st3) !! key s = Some (default [] (store w !! key s) ++ [text])%list.
Proof.
  intros Hb _ H1 He1 H2 H3. rewrite (call_RedisSink_log_binds _ _ Hb).
  destruct (rpush_event_raise _ _ _ _ _ H1) as (Hs1 & Hst1 & _ & Hcase).
  destruct st1 as [s1 w1]. simpl in Hs1, Hst1, Hcase. subst s1.
  destruct (connect_inv _ _ _ _ H2) as (Hh & Hp & Hk & Hst2 & _ & _).
  destruct (rpush_event_ok _ _ _ _ _ H3) as (c2 & text & Hc2 & Hd & Hs3 & Hr3).
  simpl in Hc2, Hs3, Hr3.
  destruct (rpush_ok _ _ _ _ _ _ Hr3) as (Ht3 & Hst3 & _). simpl in Ht3, Hst3.
  assert (Hlog : RedisSink.log kw (s, w) = (Ok tt, st3)).
  { rewrite log_unfold, H1, He1, retry_unfold, H2. cbv zeta.
    rewrite Hh, Hp, H3. reflexivity. }
  destruct Hcase as [[-> [Hn|Hd']]|(c & text' & Hc & Hd' & Hr1 & Ht1)].
  - (* no connection attribute: the error is not a ConnectionError *)
    rewrite rpush_event_cases, Hn in H1. by inversion H1; subst.
  - congruence.
  - assert (text' = text) by congruence. subst text'.
    destruct (connect_ok _ _ _ H2) as (Hs2 & Ht2 & _). cbv zeta in Hs2, Ht2.
    rewrite Hs2 in Hc2. simpl in Hc2. injection Hc2 as <-.
    rewrite Hk in Ht3, Hst3.
    assert (Ht : trace (snd st3) =
      (trace w ++ [EvRpush c (key s) text (Some e1);
                   EvStrictRedis (Client (next_id w1) (host s) (port s) 0 30) None;
                   EvPing (Client (next_id w1) (host s) (port s) 0 30) None;
                   EvLog "output" INFO (reconnected_msg (host s) (port s));
                   EvRpush (Client (next_id w1) (host s) (port s) 0 30) (key s) text None])%list).
    { rewrite Ht3, Ht2, Ht1, <- !app_assoc. reflexivity. }
    split; [done|]. rewrite Ht, !count_app.
    split; [unfold count at 2; simpl; lia|].
    split; [unfold count at 2; simpl; lia|].
    split; [unfold count at 2; simpl; lia|].
    exists c, (Client (next_id w1) (host s) (port s) 0 30), text.
    rewrite Hs3, Hs2. simpl. repeat split; try done.
    rewrite Hst3, Hst2, Hst1. apply push_lookup.
Qed.

(** C5, as the spec has it, fails: the first push times out, a
    connection-level error that the client raises as [TimeoutError], not
    a [ConnectionError], and every later call would succeed.  [log]
    raises the timeout to the caller: it does not reconnect, writes no
    info line and appends nothing. *)
Lemma RedisSink_log_timeout_escapes :
  let w := Example.built [Some Scenario.timeout] in
  let out := Call.RedisSink_log Example.event (Example.sink, w) in
  Call.binds Example.event = true /\
  fst out = Raise Scenario.timeout /\
  count is_connect (trace (snd (snd out))) = count is_connect (trace w) /\
  count (is_log INFO) (trace (snd (snd out))) = 0%nat /\
  count is_rpush_ok (trace (snd (snd out))) = 0%nat /\
  store (snd (snd out)) = store w /\
  script (snd (snd out)) = [].
Proof. vm_compute. repeat split; reflexivity. Qed.

Ltac count_step :=
  rewrite ?count_app, ?count_one; simpl; try lia.

(** C6, as the code has it.  The double failure, for a call that binds
    its fields, their integers within the conversion limit: the first
    append fails with a redis [ConnectionError] and then the reconnect
    fails, or the reconnect succeeds and the retried append fails, with
    an error [e2] (an [Exception]).  Then the call returns normally, no
    append has succeeded
    and the lists are as before, exactly one error line "Redis: e2" has
    been logged, and at most two appends were attempted. *)
Theorem RedisSink_log_double_failure kw (s : RedisSink.t) (w : world) e1 st1 e2 st2 :
  Call.binds kw = true ->
  Limits.ints_fit_kwargs kw = true ->
  rpush_event kw (s, w) = (Raise e1, st1) ->
  is_ConnectionError e1 = true ->
  (_connect st1 = (Raise e2, st2) \/
   exists sc,
     _connect st1 = (Ok tt, sc) /\
     rpush_event kw
       (fst sc, record (EvLog "output" INFO (reconnected_msg (host s) (port s)))
                       (snd sc)) = (Raise e2, st2)) ->
  is_Exception e2 = true ->
  let final := record (EvLog "output" ERROR (error_msg e2)) (snd st2) in
  Call.RedisSink_log kw (s, w) = (Ok tt, (fst st2, final)) /\
  count is_rpush_ok (trace final) = count is_rpush_ok (trace w) /\
  store final = store w /\
  count (is_log ERROR) (trace final) = S (count (is_log ERROR) (trace w)) /\
  (count is_rpush (trace final) <= 2 + count is_rpush (trace w))%nat.
Proof.
  intros Hb _ H1 He1 H2 He2 final. rewrite (call_RedisSink_log_binds _ _ Hb).
  destruct (rpush_event_raise _ _ _ _ _ H1) as (Hs1 & Hst1 & _ & Hcase).
  pose proof (rpush_event_raise_count _ _ _ _ _ is_rpush_ok (fun _ _ _ _ => eq_refl) H1) as Hok1.
  pose proof (rpush_event_raise_count _ _ _ _ _ (is_log ERROR) (fun _ _ _ _ => eq_refl) H1) as Herr1.
  assert (Hall1 : (count is_rpush (trace (snd st1)) <= 1 + count is_rpush (trace w))%nat).
  { destruct Hcase as [[-> _]|(c & text & _ & _ & _ & ->)]; [lia|]. count_step. }
  destruct st1 as [s1 w1]. simpl in Hs1, Hst1, Hok1, Herr1, Hall1. subst s1.
  destruct H2 as [H2|(sc & H2 & H3)].
  - (* the reconnect fails *)
    destruct (connect_inv _ _ _ _ H2) as (_ & _ & _ & Hst2 & _ & Hcnt).
    split.
    { rewrite log_unfold, H1, He1, retry_unfold, H2, He2. reflexivity. }
    unfold final, record; simpl.
    rewrite !count_app, !count_one, !Hcnt by done. simpl.
    repeat split; try lia. congruence.
  - (* the retried append fails *)
    destruct (connect_inv _ _ _ _ H2) as (Hh & Hp & Hk & Hstc & _ & Hcnt).
    destruct (rpush_event_raise _ _ _ _ _ H3) as (_ & Hst2 & _ & Hcase2).
    pose proof (rpush_event_raise_count _ _ _ _ _ is_rpush_ok (fun _ _ _ _ => eq_refl) H3) as Hok2.
    pose proof (rpush_event_raise_count _ _ _ _ _ (is_log ERROR) (fun _ _ _ _ => eq_refl) H3) as Herr2.
    assert (Hall2 : (count is_rpush (trace (snd st2)) <= 1 + count is_rpush (trace w1))%nat).
    { destruct Hcase2 as [[-> _]|(c & text & _ & _ & _ & ->)]; simpl;
        rewrite ?count_app, ?count_one, ?Hcnt by done; simpl; lia. }
    simpl in Hst2, Hok2, Herr2.
    rewrite !count_app, !count_one, !Hcnt in Hok2, Herr2 by done. simpl in Hok2, Herr2.
    split.
    { rewrite log_unfold, H1, He1, retry_unfold, H2. cbv zeta.
      rewrite Hh, Hp, H3, He2. reflexivity. }
    unfold final, record; simpl.
    rewrite !count_app, !count_one. simpl.
    repeat split; try lia. congruence.
Qed.

(** C6, as the spec has it, fails: the first push times out
    ([TimeoutError], not a [ConnectionError]) on a server that would then
    refuse the reconnect.  [log] raises the timeout to the caller and
    writes no error line; the refusal is still to come, no reconnect
    having been attempted. *)
Lemma RedisSink_log_timeout_not_logged :
  let w := Example.built [Some Scenario.timeout; Some Example.refused] in
  let out := Call.RedisSink_log Example.event (Example.sink, w) in
  Call.binds Example.event = true /\
  fst out = Raise Scenario.timeout /\
  count (is_log ERROR) (trace (snd (snd out))) = 0%nat /\
  count is_connect (trace (snd (snd out))) = count is_connect (trace w) /\
  script (snd (snd out)) = [Some Example.refused].
Proof. vm_compute. repeat split; reflexivity. Qed.

(* ===================================================================== *)
(** * What [RedisSink.log] lets through *)
(* ===================================================================== *)

(** The outer handler of [log] is [except redis.exceptions.ConnectionError]:
    a first attempt that fails with anything else is not handled. *)
Lemma log_first_failure_escapes kw (s : RedisSink.t) (w : world) e st1 :
  rpush_event kw (s, w) = (Raise e, st1) ->
  is_ConnectionError e = false ->
  RedisSink.log kw (s, w) = (Raise e, st1).
Proof. intros H He. by rewrite log_unfold, H, He. Qed.

(** C1, as the code has it.  A call of [log] that binds its fields, their
    integers within the conversion limit, raises nothing when every
    failure of the first attempt is a redis [ConnectionError] and every
    failure of the reconnect-and-retry path is an [Exception]; when the
    retry path fails, the error is logged at error level and the event is
    dropped, the lists being as before. *)
Theorem RedisSink_log_contains_connection_failures kw (s : RedisSink.t) (w : world) :
  Call.binds kw = true ->
  Limits.ints_fit_kwargs kw = true ->
  (forall e1 st1, rpush_event kw (s, w) = (Raise e1, st1) ->
                  is_ConnectionError e1 = true) ->
  (forall e1 st1 e2 st2,
      rpush_event kw (s, w) = (Raise e1, st1) ->
      reconnect_and_retry kw st1 = (Raise e2, st2) ->
      is_Exception e2 = true) ->
  exists st',
    Call.RedisSink_log kw (s, w) = (Ok tt, st') /\
    forall e1 st1 e2 st2,
      rpush_event kw (s, w) = (Raise e1, st1) ->
      reconnect_and_retry kw st1 = (Raise e2, st2) ->
      st' = (fst st2, record (EvLog "output" ERROR (error_msg e2)) (snd st2)) /\
      store (snd st') = store w /\
      count is_rpush_ok (trace (snd st')) = count is_rpush_ok (trace w).
Proof.
  intros Hb _ Hconn Hexc. rewrite (call_RedisSink_log_binds _ _ Hb), log_unfold.
  destruct (rpush_event kw (s, w)) as [[n|e1] st1] eqn:H1.
  - eexists. split; [reflexivity|]. intros ? ? ? ? [=].
  - rewrite (Hconn e1 st1 eq_refl).
    destruct (reconnect_and_retry kw st1) as [[[]|e2] st2] eqn:H2.
    + eexists. split; [reflexivity|]. intros e1' st1' e2' st2' [= <- <-]. congruence.
    + rewrite (Hexc e1 st1 e2 st2 eq_refl H2).
      eexists. split; [reflexivity|].
      intros e1' st1' e2' st2' [= <- <-] H2'. rewrite H2 in H2'.
      injection H2' as <- <-. split; [reflexivity|]. simpl.
      (* the retry path changed no list and made no push succeed *)
      destruct (rpush_event_raise _ _ _ _ _ H1) as (Hs1 & Hst1 & _ & _).
      pose proof (rpush_event_raise_count _ _ _ _ _ is_rpush_ok (fun _ _ _ _ => eq_refl) H1) as Hok1.
      destruct st1 as [s1 w1]. simpl in *. subst s1.
      rewrite retry_unfold in H2.
      destruct (_connect (s, w1)) as [[[]|ec] sc] eqn:Hc.
      * destruct (connect_inv _ _ _ _ Hc) as (_ & _ & _ & Hstc & _ & Hcnt).
        cbv zeta in H2.
        destruct (rpush_event kw (fst sc, _)) as [[n|er] st3] eqn:H3; [discriminate|].
        injection H2 as <- <-.
        destruct (rpush_event_raise _ _ _ _ _ H3) as (_ & Hst3 & _ & _).
        pose proof (rpush_event_raise_count _ _ _ _ _ is_rpush_ok (fun _ _ _ _ => eq_refl) H3) as Hok3.
        simpl in Hst3, Hok3. rewrite count_app, count_one, Hcnt in Hok3 by done.
        simpl in Hok3. rewrite count_app, count_one. simpl.
        split; [congruence|lia].
      * injection H2 as <- <-.
        destruct (connect_inv _ _ _ _ Hc) as (_ & _ & _ & Hstc & _ & Hcnt).
        rewrite count_app, count_one, Hcnt by done. simpl.
        split; [congruence|lia].
Qed.

(** C1, as the spec has it, fails: an event with a field that cannot be
    serialized, in a call that binds its fields, makes the first attempt
    raise [TypeError], which is not a [ConnectionError]; [log] raises it
    to the caller and logs nothing. *)
Lemma RedisSink_log_raises_TypeError :
  let out := Call.RedisSink_log Example.opaque_event
               (Example.sink, Example.built []) in
  Call.binds Example.opaque_event = true /\
  fst out = Raise (TypeError "Object of type object is not JSON serializable") /\
  count (is_log ERROR) (trace (snd (snd out))) = 0%nat.
Proof. vm_compute. repeat split; reflexivity. Qed.

(** C2, as the code has it.  When the first attempt fails with an error
    that is not a redis [ConnectionError], [log] raises that error to the
    caller; no reconnect is attempted, nothing is logged, and the sink and
    the lists are as before. *)
Theorem RedisSink_log_other_error_propagates kw (s : RedisSink.t) (w : world) e st1 :
  rpush_event kw (s, w) = (Raise e, st1) ->
  is_ConnectionError e = false ->
  RedisSink.log kw (s, w) = (Raise e, st1) /\
  fst st1 = s /\
  store (snd st1) = store w /\
  count is_connect (trace (snd st1)) = count is_connect (trace w) /\
  count (is_log INFO) (trace (snd st1)) = count (is_log INFO) (trace w) /\
  count (is_log ERROR) (trace (snd st1)) = count (is_log ERROR) (trace w) /\
  count is_rpush_ok (trace (snd st1)) = count is_rpush_ok (trace w).
Proof.
  intros H He. split; [by apply log_first_failure_escapes|].
  destruct (rpush_event_raise _ _ _ _ _ H) as (Hs1 & Hst1 & _ & _).
  repeat split; try done;
    by apply (rpush_event_raise_count _ _ _ _ _ _ (fun _ _ _ _ => eq_refl) H).
Qed.

(** C2, as the spec has it, fails: the server rejects the push with a
    [ResponseError]; [log] raises it to the caller, and no error line is
    logged. *)
Lemma RedisSink_log_raises_ResponseError :
  let out := RedisSink.log Example.event
               (Example.sink, Example.built [Some Example.wrongtype]) in
  fst out = Raise Example.wrongtype /\
  count (is_log ERROR) (trace (snd (snd out))) = 0%nat /\
  count is_connect (trace (snd (snd out))) =
    count is_connect (trace (Example.built [Some Example.wrongtype])).
Proof. vm_compute. repeat split; reflexivity. Qed.

(* ===================================================================== *)
(** * [RedisSink._connect] and [RedisSink.__init__] *)
(* ===================================================================== *)

(** C3, as the code has it.  [_connect] assigns the new client to
    [self._conn] before it pings: once the client is built, the stored
    connection is the new client, not the one stored before, whether the
    ping succeeds or raises; the stored connection is the previous one
    only when building the client itself raises. *)
Theorem RedisSink_connect_stores_before_ping (s : RedisSink.t) (w : world) r st1 :
  _connect (s, w) = (r, st1) ->
  let c := Client (next_id w) (host s) (port s) 0 30 in
  (next_answer w = None -> _conn (fst st1) = Some c) /\
  (forall c0, next_answer w = None -> _conn s = Some c0 ->
              (client_id c0 < next_id w)%nat -> _conn (fst st1) <> _conn s) /\
  (forall e, next_answer w = Some e -> r = Raise e /\ fst st1 = s) /\
  (forall e, r = Raise e -> next_answer w = None ->
             hd None (tl (script w)) = Some e /\ _conn (fst st1) = Some c).
Proof.
  intros H c.
  assert (Hnew : next_answer w = None -> _conn (fst st1) = Some c).
  { intros E. destruct r as [[]|e].
    - destruct (connect_ok _ _ _ H) as (Hs & _). by rewrite Hs.
    - destruct (connect_raise _ _ _ _ H) as (_ & [(E1 & _)|(_ & _ & Hs & _)]);
        [congruence|by rewrite Hs]. }
  split; [exact Hnew|]. split.
  { intros c0 E Hc0 Hlt. rewrite (Hnew E), Hc0. intros [= <-]. simpl in Hlt. lia. }
  destruct r as [[]|e].
  - destruct (connect_ok _ _ _ H) as (_ & _ & _ & E1 & _).
    split; [intros e He; congruence|intros e He; discriminate].
  - destruct (connect_raise _ _ _ _ H) as (_ & [(E1 & Hs & _)|(E1 & E2 & Hs & _)]).
    + split.
      * intros e' He'. split; congruence.
      * intros e' _ He'. congruence.
    + split.
      * intros e' He'. congruence.
      * intros e' [= <-] E. split; [done|]. by apply Hnew.
Qed.

(** C3, as the spec has it, fails: a sink connected through [conn0]
    reconnects, the new client is built and its ping is refused;
    [_connect] raises [ConnectionError] and the stored connection is no
    longer [conn0]. *)
Lemma RedisSink_connect_not_atomic :
  let out := _connect (Example.sink, Example.built [None; Some Example.refused]) in
  fst out = Raise Example.refused /\
  _conn Example.sink = Some Example.conn0 /\
  _conn (fst (snd out)) = Some (Client 1 "localhost" 6379 0 30) /\
  _conn (fst (snd out)) <> _conn Example.sink.
Proof. vm_compute. repeat split; try reflexivity. discriminate. Qed.

(** The sink and world of the examples are what the constructor gives. *)
Lemma example_sink_built answers :
  RedisSink.__init__ "localhost" "events" None
    (Example.boot (None :: None :: answers))
  = (Ok Example.sink, Example.built answers).
Proof. reflexivity. Qed.

(** [RedisSink.ping] returns [True] when the probe succeeds and raises
    what the probe raises. *)
Lemma RedisSink_ping_propagates (s : RedisSink.t) (w : world) c :
  _conn s = Some c ->
  RedisSink.ping (s, w) =
    match next_answer w with
    | None => (Ok true, (s, answered (EvPing c) w))
    | Some e => (Raise e, (s, answered (EvPing c) w))
    end.
Proof.
  intros Hc. unfold RedisSink.ping, bind, get_conn, attr, gets, on_snd, Env.ping,
    external, bind, ret. simpl. rewrite Hc. simpl.
  destruct (next_answer w); reflexivity.
Qed.


(* ===================================================================== *)
(** * The concrete example *)
(* ===================================================================== *)

Lemma example_event_dumps : Json.dumps Example.event = Ok Example.event_text.
Proof. vm_compute. reflexivity. Qed.

(** C7, as the code has it.  Whatever the server holds, a sink built with
    [RedisSink(host="localhost", port=6379, key="events")] on a healthy
    connection and then called as [log(level="error", msg="disk full")]
    appends exactly one element to the list [events], and its text is
    [{"level": "error", "msg": "disk full"}], with the blank after each
    colon and comma that [json.dumps] writes by default. *)
Theorem RedisSink_example_appends
    (st : gmap string (list string)) (fl : gmap string string)
    (out : string) (tr : list event) (n : nat) :
  exists s w1 w2,
    RedisSink.__init__ "localhost" "events" (Some 6379) (World st fl out tr n [])
      = (Ok s, w1) /\
    RedisSink.log Example.event (s, w1) = (Ok tt, (s, w2)) /\
    store w2 !! "events" =
      Some (default [] (st !! "events") ++ [Example.event_text])%list /\
    count is_rpush (trace w2) = S (count is_rpush tr) /\
    count is_rpush_ok (trace w2) = S (count is_rpush_ok tr).
Proof.
  set (c := Client n "localhost" 6379 0 30).
  set (w1 := World st fl out ((tr ++ [EvStrictRedis c None]) ++ [EvPing c None])%list
                   (S n) []).
  exists (Obj "localhost" 6379 "events" (Some c)), w1,
    (World (push "events" Example.event_text st) fl out
           (trace w1 ++ [EvRpush c "events" Example.event_text None])%list (S n) []).
  split; [reflexivity|]. split.
  { rewrite log_unfold, rpush_event_cases. cbn [_conn].
    rewrite example_event_dumps, rpush_cases. reflexivity. }
  cbn [store trace]. split; [apply push_lookup|].
  unfold w1. cbn [trace]. rewrite !count_app, !count_one. simpl. lia.
Qed.

Lemma RedisSink_example_appends_from_boot :
  exists s w1 w2,
    RedisSink.__init__ "localhost" "events" (Some 6379) (Example.boot [])
      = (Ok s, w1) /\
    RedisSink.log Example.event (s, w1) = (Ok tt, (s, w2)) /\
    store w2 !! "events" = Some [Example.event_text].
Proof.
  exists Example.sink, (Example.built []),
    (World (push "events" Example.event_text ∅) ∅ ""
           (trace (Example.built []) ++
              [EvRpush Example.conn0 "events" Example.event_text None])%list 1 []).
  split; [reflexivity|]. split.
  { rewrite log_unfold, rpush_event_cases. cbn [_conn Example.sink].
    rewrite example_event_dumps, rpush_cases. reflexivity. }
  cbn [store]. rewrite push_lookup. reflexivity.
Qed.

(** C7, as the spec has it, fails: the element appended is not the
    compact text [{"level":"error","msg":"disk full"}]. *)
Lemma RedisSink_example_not_compact :
  exists s w1 w2,
    RedisSink.__init__ "localhost" "events" (Some 6379) (Example.boot [])
      = (Ok s, w1) /\
    RedisSink.log Example.event (s, w1) = (Ok tt, (s, w2)) /\
    store w2 !! "events" = Some [Example.event_text] /\
    Example.event_text <> Example.event_text_compact.
Proof.
  destruct (RedisSink_example_appends_from_boot) as (s & w1 & w2 & H1 & H2 & H3).
  exists s, w1, w2. split; [exact H1|]. split; [exact H2|]. split; [exact H3|].
  vm_compute. discriminate.
Qed.

(* ===================================================================== *)
(** * The text of [json.dumps] is a single line *)
(* ===================================================================== *)

Lemma one_line_app a b :
  Json.one_line (a +:+ b) = Json.one_line a && Json.one_line b.
Proof.
  induction a as [|x a IH]; simpl; [reflexivity|].
  rewrite IH. by rewrite andb_assoc.
Qed.

Lemma one_line_hex_digit n :
  Ascii.eqb (Json.hex_digit n) "010"%char = false.
Proof.
  unfold Json.hex_digit.
  assert (H : (N.to_nat (n mod 16) < 16)%nat).
  { pose proof (N.mod_upper_bound n 16). lia. }
  revert H. generalize (N.to_nat (n mod 16)). intros m H.
  do 16 (destruct m as [|m]; [reflexivity|]). lia.
Qed.

Lemma one_line_hex4 n : Json.one_line (Json.hex4 n) = true.
Proof. unfold Json.hex4. simpl. by rewrite !one_line_hex_digit. Qed.

Lemma one_line_escape_char c : Json.one_line (Json.escape_char c) = true.
Proof.
  unfold Json.escape_char.
  repeat match goal with
         | |- context [(c =? ?k)%N] => destruct (c =? k)%N; [reflexivity|]
         end.
  destruct ((32 <=? c)%N && (c <=? 126)%N) eqn:Hp.
  - apply andb_true_iff in Hp as [H1 H2].
    apply N.leb_le in H1. apply N.leb_le in H2.
    simpl. rewrite andb_true_r. apply negb_true_iff.
    destruct (Ascii.eqb_spec (ascii_of_N c) "010"%char) as [E|]; [|reflexivity].
    apply (f_equal N_of_ascii) in E.
    rewrite N_ascii_embedding in E by lia. simpl in E. lia.
  - destruct (c <? 65536)%N; rewrite !one_line_app, !one_line_hex4; reflexivity.
Qed.

Lemma one_line_escape s : Json.one_line (Json.escape s) = true.
Proof.
  induction s as [|c s IH]; [reflexivity|].
  simpl. by rewrite one_line_app, one_line_escape_char, IH.
Qed.

Lemma one_line_basestring s :
  Json.one_line (Json.encode_basestring_ascii s) = true.
Proof.
  unfold Json.encode_basestring_ascii. by rewrite !one_line_app, one_line_escape.
Qed.

Lemma one_line_uint d : Json.one_line (NilEmpty.string_of_uint d) = true.
Proof. induction d; simpl; auto. Qed.

Lemma one_line_int_repr z : Json.one_line (int_repr z) = true.
Proof.
  unfold int_repr, NilZero.string_of_int, NilZero.string_of_uint.
  destruct (Z.to_int z) as [d|d]; destruct d; simpl; auto using one_line_uint.
Qed.

Lemma one_line_floatstr r :
  Json.one_line r = true -> Json.one_line (Json.floatstr r) = true.
Proof.
  intros H. unfold Json.floatstr.
  repeat match goal with
         | |- context [String.eqb r ?k] => destruct (String.eqb r k); [reflexivity|]
         end.
  exact H.
Qed.

Lemma one_line_key k text :
  Json.plain_key k = true -> Json.encode_key k = Ok text ->
  Json.one_line text = true.
Proof.
  destruct k as [s|z|r|[]| |t]; simpl; intros Hp [= <-]; try reflexivity.
  - apply one_line_basestring.
  - by rewrite !one_line_app, one_line_int_repr.
  - by rewrite !one_line_app, one_line_floatstr.
Qed.

Lemma one_line_join sep parts :
  Json.one_line sep = true ->
  Forall (fun p => Json.one_line p = true) parts ->
  Json.one_line (Json.join sep parts) = true.
Proof.
  intros Hsep. induction 1 as [|p rest Hp Hrest IH]; [reflexivity|].
  destruct rest as [|q rest]; [exact Hp|].
  change (Json.join sep (p :: q :: rest))
    with (p +:+ sep +:+ Json.join sep (q :: rest)).
  by rewrite !one_line_app, Hp, Hsep, IH.
Qed.

(** Induction on a value with the hypothesis for every item of a list or
    a dict. *)
Lemma pyval_nested_ind (P : Json.pyval -> Prop) :
  P Json.PyNone ->
  (forall b, P (Json.PyBool b)) ->
  (forall z, P (Json.PyInt z)) ->
  (forall r, P (Json.PyFloat r)) ->
  (forall s, P (Json.PyStr s)) ->
  (forall items, Forall P items -> P (Json.PyList items)) ->
  (forall items, Forall (fun kv => P (snd kv)) items -> P (Json.PyDict items)) ->
  (forall t, P (Json.PyObject t)) ->
  forall o, P o.
Proof.
  intros HNone HBool HInt HFloat HStr HList HDict HObj.
  fix IH 1. intros [|b|z|r|s|items|items|t].
  - exact HNone.
  - apply HBool.
  - apply HInt.
  - apply HFloat.
  - apply HStr.
  - apply HList. revert items. fix IHl 1.
    intros [|x l]; constructor; [apply IH|apply IHl].
  - apply HDict. revert items. fix IHl 1.
    intros [|[k x] l]; constructor; [apply IH|apply IHl].
  - apply HObj.
Qed.

Lemma encode_one_line o :
  forall text,
    Json.plain o = true -> Json.encode o = Ok text -> Json.one_line text = true.
Proof.
  induction o as [|b|z|r|s|items IH|items IH|t] using pyval_nested_ind;
    intros text Hp He; simpl in He.
  - by injection He as <-.
  - destruct b; by injection He as <-.
  - injection He as <-. apply one_line_int_repr.
  - injection He as <-. by apply one_line_floatstr.
  - injection He as <-. apply one_line_basestring.
  - destruct (Json.collect (map Json.encode items)) as [parts|] eqn:Hc; [|discriminate].
    injection He as <-. rewrite !one_line_app, andb_true_r. simpl.
    apply one_line_join; [reflexivity|].
    simpl in Hp. clear -IH Hp Hc. revert parts Hc.
    induction IH as [|x l Hx Hl IHl]; intros parts Hc; simpl in Hc.
    + injection Hc as <-. constructor.
    + simpl in Hp. apply andb_true_iff in Hp as [Hpx Hpl].
      destruct (Json.encode x) as [sx|] eqn:Ex; [|discriminate]. simpl in Hc.
      destruct (Json.collect (map Json.encode l)) as [ps|]; [|discriminate].
      injection Hc as <-. constructor; [by apply Hx|by apply IHl].
  - destruct (Json.collect _) as [parts|] eqn:Hc; [|discriminate].
    injection He as <-. rewrite !one_line_app, andb_true_r. simpl.
    apply one_line_join; [reflexivity|].
    simpl in Hp. clear -IH Hp Hc. revert parts Hc.
    induction IH as [|[k x] l Hx Hl IHl]; intros parts Hc; simpl in Hc.
    + injection Hc as <-. constructor.
    + simpl in Hp. apply andb_true_iff in Hp as [Hpx Hpl].
      apply andb_true_iff in Hpx as [Hpk Hpx].
      destruct (Json.encode_key k) as [sk|] eqn:Ek; [|discriminate]. simpl in Hc.
      destruct (Json.encode x) as [sx|] eqn:Ex; [|discriminate]. simpl in Hc.
      destruct (Json.collect _) as [ps|]; [|discriminate].
      injection Hc as <-. constructor; [|by apply IHl].
      rewrite !one_line_app. simpl in Hx.
      by rewrite (one_line_key _ _ Hpk Ek), (Hx _ Hpx Ex).
  - discriminate.
Qed.

Lemma dumps_one_line kw text :
  Json.plain_kwargs kw = true -> Json.dumps kw = Ok text ->
  Json.one_line text = true.
Proof. apply encode_one_line. Qed.

(* ===================================================================== *)
(** * [StdoutSink.log] *)
(* ===================================================================== *)

(** C9, as the code has it.  [log] is called with fields it can bind (no
    name twice, none named [self]) whose integers are within the
    conversion limit; the event serializes to [text] and the write
    succeeds.  Then the call returns normally after exactly one [print]:
    standard output grows by [text] followed by a newline and by nothing
    else, and [text] itself has no line feed in it (the floats of the
    event having the text of a [float.__repr__]), so what is written is
    one line. *)
Theorem StdoutSink_log_writes_one_line kw text (w w1 : world) :
  Call.binds kw = true ->
  Limits.ints_fit_kwargs kw = true ->
  Json.dumps kw = Ok text ->
  print text w = (Ok tt, w1) ->
  Call.StdoutSink_log kw w = (Ok tt, w1) /\
  stdout w1 = stdout w +:+ text +:+ newline /\
  trace w1 = (trace w ++ [EvPrint text None])%list /\
  count is_print (trace w1) = S (count is_print (trace w)) /\
  store w1 = store w /\
  (Json.plain_kwargs kw = true -> Json.one_line text = true).
Proof.
  intros Hb _ Hd Hp.
  assert (Hlog : Call.StdoutSink_log kw w = (Ok tt, w1)).
  { rewrite (call_StdoutSink_log_binds _ _ Hb).
    unfold StdoutSink.log, bind, lift_result. by rewrite Hd. }
  split; [done|].
  unfold print in Hp. rewrite external_cases in Hp.
  destruct (next_answer w) eqn:E; [discriminate|].
  injection Hp as <-. unfold answered. simpl. rewrite E.
  rewrite count_app, count_one. simpl.
  repeat split; try done; try lia.
  intros Hplain. by apply (dumps_one_line kw).
Qed.

(** C9, as the spec has it, fails: the event [{"self": 1}] serializes and
    the write would succeed (the example event is written), yet
    [log(self=1)] writes no line.  The field collides with the first
    parameter of [def log(self, **kwargs)]: the call raises [TypeError]
    before the body runs. *)
Lemma StdoutSink_log_self_field :
  let out := Call.StdoutSink_log Scenario.self_event (Example.boot []) in
  Json.dumps Scenario.self_event = Ok Scenario.self_text /\
  next_answer (Example.boot []) = None /\
  fst (Call.StdoutSink_log Example.event (Example.boot [])) = Ok tt /\
  fst out = Raise (TypeError "log() got multiple values for argument 'self'") /\
  stdout (snd out) = "" /\
  count is_print (trace (snd out)) = 0%nat.
Proof. vm_compute. repeat split; reflexivity. Qed.

(* ===================================================================== *)
(** * [read_config] *)
(* ===================================================================== *)

Section ReadConfigFacts.

Variable json_loads : string -> result Json.pyval.

Lemma read_config_cases cfgfile (w : world) :
  read_config json_loads cfgfile w =
    match files w !! cfgfile with
    | None =>
        (Raise (IOError ("No such file or directory: '" +:+ cfgfile +:+ "'")), w)
    | Some content =>
        match json_loads content with
        | Raise e =>
            if is_ValueError e then
              (Raise (SystemExit (-1)),
               record (EvLog "root" ERROR
                         ("Could not read config file: " +:+ str_exn e)) w)
            else (Raise e, w)
        | Ok cfg =>
            match subscript cfg "input" with
            | Raise e => (Raise e, w)
            | Ok i =>
                match subscript cfg "output" with
                | Raise e => (Raise e, w)
                | Ok o => (Ok (i, o), w)
                end
            end
        end
    end.
Proof.
  unfold read_config, bind, open, try_except, read, gets, lift_result,
    log_error, modify, raise, ret.
  destruct (files w !! cfgfile) as [content|] eqn:Hf; [|reflexivity].
  simpl. rewrite Hf. simpl.
  destruct (json_loads content) as [cfg|e].
  - destruct (subscript cfg "input"); [|reflexivity].
    destruct (subscript cfg "output"); reflexivity.
  - destruct (is_ValueError e); reflexivity.
Qed.

(** X20.  Malformed JSON: the decoder raises a [ValueError], [read_config]
    logs it and exits with status -1. *)
Lemma read_config_malformed cfgfile content msg (w : world) :
  files w !! cfgfile = Some content ->
  json_loads content = Raise (ValueError msg) ->
  read_config json_loads cfgfile w =
    (Raise (SystemExit (-1)),
     record (EvLog "root" ERROR ("Could not read config file: " +:+ msg)) w).
Proof. intros Hf Hj. by rewrite read_config_cases, Hf, Hj. Qed.


(** X21.  For a file that holds the text [content] (its bytes decode;
    [f.read()] on a file whose bytes do not decode raises a [ValueError]
    inside the [try], which is not a case of [files]): when [read_config]
    exits, the decoder had raised on that text, a [ValueError], and then
    the status is -1, or that very [SystemExit]. *)
Lemma read_config_exit_only_malformed cfgfile content code (w w' : world) :
  files w !! cfgfile = Some content ->
  read_config json_loads cfgfile w = (Raise (SystemExit code), w') ->
  exists e,
    json_loads content = Raise e /\
    (is_ValueError e = true /\ code = -1 \/ e = SystemExit code).
Proof.
  intros Hf. rewrite read_config_cases, Hf.
  destruct (json_loads content) as [cfg|e] eqn:Hj.
  - unfold subscript. destruct cfg; try discriminate.
    destruct (dict_get (Json.str "input") items); [|discriminate].
    destruct (dict_get (Json.str "output") items); discriminate.
  - destruct (is_ValueError e) eqn:Hv.
    + intros [= <- _]. exists e. split; [done|]. by left.
    + intros [= -> _]. exists (SystemExit code). split; [done|]. by right.
Qed.


End ReadConfigFacts.

(* ===================================================================== *)
(** * The theorems at concrete inputs *)
(* ===================================================================== *)

Lemma RedisSink_log_healthy_witness :
  rpush_event Example.event (Example.sink, Example.built [])
    = (Ok 1%nat, (Example.sink, Example.appended)) /\
  Call.RedisSink_log Example.event (Example.sink, Example.built [])
    = (Ok tt, (Example.sink, Example.appended)).
Proof.
  assert (Hb : Call.binds Example.event = true) by (vm_compute; reflexivity).
  assert (Hi : Limits.ints_fit_kwargs Example.event = true)
    by (vm_compute; reflexivity).
  assert (H : rpush_event Example.event (Example.sink, Example.built [])
              = (Ok 1%nat, (Example.sink, Example.appended)))
    by (vm_compute; reflexivity).
  split; [exact H|].
  destruct (RedisSink_log_healthy _ _ _ _ _ Hb Hi H)
    as (c & text & _ & _ & Hlog & _).
  exact Hlog.
Defined.

Lemma RedisSink_log_reconnect_witness :
  Call.RedisSink_log Example.event
    (Example.sink, Example.built [Some Example.reset])
    = (Ok tt, (Example.sink1, Example.after_retry)) /\
  count is_rpush_ok (trace Example.after_retry) = 1%nat /\
  count (is_log INFO) (trace Example.after_retry) = 1%nat.
Proof.
  assert (Hb : Call.binds Example.event = true) by (vm_compute; reflexivity).
  assert (Hi : Limits.ints_fit_kwargs Example.event = true)
    by (vm_compute; reflexivity).
  assert (H1 : rpush_event Example.event
                 (Example.sink, Example.built [Some Example.reset])
               = (Raise Example.reset, (Example.sink, Example.after_reset [])))
    by (vm_compute; reflexivity).
  assert (H2 : _connect (Example.sink, Example.after_reset [])
               = (Ok tt, (Example.sink1, Example.after_reconnect [])))
    by (vm_compute; reflexivity).
  assert (H3 : rpush_event Example.event
                 (fst (Example.sink1, Example.after_reconnect []),
                  record (EvLog "output" INFO
                            (reconnected_msg (host Example.sink) (port Example.sink)))
                         (snd (Example.sink1, Example.after_reconnect [])))
               = (Ok 1%nat, (Example.sink1, Example.after_retry)))
    by (vm_compute; reflexivity).
  destruct (RedisSink_log_reconnect _ _ _ _ _ _ _ _ Hb Hi H1 eq_refl H2 H3)
    as (Hlog & Hok & Hinfo & _).
  split; [exact Hlog|]. split; [exact Hok|exact Hinfo].
Defined.

Lemma RedisSink_log_double_failure_witness :
  Call.RedisSink_log Example.event
    (Example.sink, Example.built [Some Example.reset; None; Some Example.refused])
    = (Ok tt, (Example.sink1,
               record (EvLog "output" ERROR "Redis: Connection refused")
                      Example.after_refused)) /\
  store Example.after_refused = ∅.
Proof.
  assert (Hb : Call.binds Example.event = true) by (vm_compute; reflexivity).
  assert (Hi : Limits.ints_fit_kwargs Example.event = true)
    by (vm_compute; reflexivity).
  assert (H1 : rpush_event Example.event
                 (Example.sink,
                  Example.built [Some Example.reset; None; Some Example.refused])
               = (Raise Example.reset,
                  (Example.sink, Example.after_reset [None; Some Example.refused])))
    by (vm_compute; reflexivity).
  assert (H2 : _connect (Example.sink, Example.after_reset [None; Some Example.refused])
               = (Raise Example.refused, (Example.sink1, Example.after_refused)))
    by (vm_compute; reflexivity).
  destruct (RedisSink_log_double_failure _ _ _ _ _ _ _ Hb Hi H1 eq_refl
              (or_introl H2) eq_refl)
    as (Hlog & _).
  split; [exact Hlog|reflexivity].
Defined.

Lemma RedisSink_log_contains_connection_failures_witness :
  exists st',
    Call.RedisSink_log Example.event
      (Example.sink, Example.built [Some Example.reset; None; Some Example.refused])
    = (Ok tt, st').
Proof.
  destruct (RedisSink_log_contains_connection_failures Example.event Example.sink
              (Example.built [Some Example.reset; None; Some Example.refused]))
    as (st' & Hlog & _).
  - vm_compute. reflexivity.
  - vm_compute. reflexivity.
  - intros e1 st1 H. vm_compute in H. injection H as <- _. reflexivity.
  - intros e1 st1 e2 st2 H1 H2. vm_compute in H1. injection H1 as _ <-.
    vm_compute in H2. injection H2 as <- _. reflexivity.
  - exists st'. exact Hlog.
Defined.

Lemma RedisSink_log_other_error_propagates_witness :
  RedisSink.log Example.opaque_event (Example.sink, Example.built [])
  = (Raise (TypeError "Object of type object is not JSON serializable"),
     (Example.sink, Example.built [])).
Proof.
  assert (H : rpush_event Example.opaque_event (Example.sink, Example.built [])
              = (Raise (TypeError "Object of type object is not JSON serializable"),
                 (Example.sink, Example.built [])))
    by (vm_compute; reflexivity).
  destruct (RedisSink_log_other_error_propagates _ _ _ _ _ H eq_refl) as (Hlog & _).
  exact Hlog.
Defined.

Lemma RedisSink_connect_stores_before_ping_witness :
  _connect (Example.sink, Example.after_reset [None; Some Example.refused])
    = (Raise Example.refused, (Example.sink1, Example.after_refused)) /\
  _conn (fst (Example.sink1, Example.after_refused)) = Some Example.conn1.
Proof.
  assert (H : _connect (Example.sink, Example.after_reset [None; Some Example.refused])
              = (Raise Example.refused, (Example.sink1, Example.after_refused)))
    by (vm_compute; reflexivity).
  split; [exact H|].
  destruct (RedisSink_connect_stores_before_ping _ _ _ _ H) as (Hnew & _).
  exact (Hnew eq_refl).
Defined.


Lemma StdoutSink_log_writes_one_line_witness :
  Call.StdoutSink_log Example.event (Example.boot [])
  = (Ok tt, World ∅ ∅ (Example.event_text +:+ newline)
                  [EvPrint Example.event_text None] 0 []).
Proof.
  assert (Hp : print Example.event_text (Example.boot [])
               = (Ok tt, World ∅ ∅ (Example.event_text +:+ newline)
                               [EvPrint Example.event_text None] 0 []))
    by (vm_compute; reflexivity).
  assert (Hb : Call.binds Example.event = true) by (vm_compute; reflexivity).
  assert (Hi : Limits.ints_fit_kwargs Example.event = true)
    by (vm_compute; reflexivity).
  destruct (StdoutSink_log_writes_one_line _ _ _ _ Hb Hi example_event_dumps Hp)
    as (Hlog & _).
  exact Hlog.
Defined.



(* ===================================================================== *)
(** * When [json.dumps] raises *)
(* ===================================================================== *)

Lemma collect_ok_inv {A} (f : A -> result string) (l : list A) parts :
  Json.collect (map f l) = Ok parts ->
  Forall2 (fun x t => f x = Ok t) l parts.
Proof.
  revert parts. induction l as [|x l IH]; intros parts H; simpl in H.
  - injection H as <-. constructor.
  - destruct (f x) as [t|] eqn:Ex; [|discriminate]. simpl in H.
    destruct (Json.collect (map f l)) as [ps|]; [|discriminate].
    injection H as <-. constructor; [exact Ex|by apply IH].
Qed.

Lemma collect_ok {A} (f : A -> result string) (l : list A) :
  Forall (fun x => exists t, f x = Ok t) l ->
  exists parts, Json.collect (map f l) = Ok parts.
Proof.
  induction 1 as [|x l [t Hx] _ [ps IH]]; simpl.
  - by exists [].
  - rewrite Hx. simpl. rewrite IH. by eexists.
Qed.


Lemma encode_key_serializable k :
  Payload.serializable_key k = true <-> exists t, Json.encode_key k = Ok t.
Proof.
  destruct k as [s|z|r|[]| |t]; simpl; split; eauto; try done.
  intros [t' H]. discriminate.
Qed.


Lemma forallb_Forall_true {A} (f : A -> bool) (l : list A) :
  forallb f l = true <-> Forall (fun x => f x = true) l.
Proof.
  induction l as [|x l IH]; simpl.
  - split; [constructor|reflexivity].
  - rewrite andb_true_iff, IH. split.
    + intros [? ?]. by constructor.
    + intros H. by inversion H.
Qed.

Lemma collect_ok_Forall {A} (f : A -> result string) (l : list A) parts :
  Json.collect (map f l) = Ok parts ->
  Forall (fun x => exists t, f x = Ok t) l.
Proof.
  intros H. apply collect_ok_inv in H.
  induction H; constructor; eauto.
Qed.

(** [encode] has a text for a value exactly when the value is made of
    the types it knows. *)
Lemma encode_serializable o :
  Payload.serializable o = true <-> exists t, Json.encode o = Ok t.
Proof.
  induction o as [|b|z|r|s|items IH|items IH|t] using pyval_nested_ind; simpl.
  - split; eauto.
  - destruct b; split; eauto.
  - split; eauto.
  - split; eauto.
  - split; eauto.
  - rewrite forallb_Forall_true. split.
    + intros Hs.
      destruct (collect_ok Json.encode items) as [parts Hc].
      { rewrite Forall_forall in IH, Hs. apply Forall_forall. intros x Hx.
        apply (IH _ Hx). by apply Hs. }
      rewrite Hc. simpl. eauto.
    + intros [t Ht].
      destruct (Json.collect (map Json.encode items)) as [parts|] eqn:Hc;
        [|discriminate].
      apply collect_ok_Forall in Hc.
      rewrite Forall_forall in IH, Hc. apply Forall_forall. intros x Hx.
      apply (IH _ Hx). by apply Hc.
  - rewrite forallb_Forall_true. split.
    + intros Hs.
      destruct (collect_ok
                  (fun kv : Json.pykey * Json.pyval =>
                     let? sk := Json.encode_key (fst kv) in
                     let? sv := Json.encode (snd kv) in
                     Ok (sk +:+ ": " +:+ sv)) items) as [parts Hc].
      { rewrite Forall_forall in IH, Hs. apply Forall_forall. intros [k x] Hx.
        specialize (Hs _ Hx). simpl in Hs.
        apply andb_true_iff in Hs as [Hk Hv].
        apply encode_key_serializable in Hk as [sk Hk].
        apply (IH _ Hx) in Hv as [sv Hv]. simpl in Hv. simpl.
        rewrite Hk. simpl. rewrite Hv. simpl. eauto. }
      rewrite Hc. simpl. eauto.
    + intros [t Ht].
      destruct (Json.collect _) as [parts|] eqn:Hc; [|discriminate].
      apply collect_ok_Forall in Hc.
      rewrite Forall_forall in IH, Hc. apply Forall_forall. intros [k x] Hx.
      destruct (Hc _ Hx) as [t' Hkx]. simpl in Hkx. simpl.
      destruct (Json.encode_key k) as [sk|] eqn:Ek; [|discriminate]. simpl in Hkx.
      destruct (Json.encode x) as [sv|] eqn:Ev; [|discriminate].
      apply andb_true_iff. split.
      * apply encode_key_serializable. eauto.
      * apply (IH _ Hx). simpl. eauto.
  - split; [discriminate|]. intros [t' H]. discriminate.
Qed.


Lemma dumps_serializable kw :
  Payload.serializable_kwargs kw = true <-> exists t, Json.dumps kw = Ok t.
Proof. apply encode_serializable. Qed.


(* ===================================================================== *)
(** * The answers still to come *)
(* ===================================================================== *)

Lemma answer_at_0 w : answer_at 0 w = next_answer w.
Proof. unfold answer_at, next_answer. by destruct (script w). Qed.

Lemma nth_tl {A} n (l : list A) d : nth n (tl l) d = nth (S n) l d.
Proof. destruct l; [by destruct n|reflexivity]. Qed.

Lemma answer_at_answered n ev w :
  answer_at n (answered ev w) = answer_at (S n) w.
Proof. unfold answer_at, answered. simpl. apply nth_tl. Qed.

Lemma answer_at_1 w : answer_at 1 w = hd None (tl (script w)).
Proof.
  unfold answer_at. destruct (script w) as [|a [|b l]]; reflexivity.
Qed.

Lemma string_app_assoc (a b c : string) : (a +:+ b) +:+ c = a +:+ b +:+ c.
Proof.
  induction a as [|x a IH]; [reflexivity|].
  change (String x ((a +:+ b) +:+ c) = String x (a +:+ b +:+ c)).
  by rewrite IH.
Qed.

Lemma print_cases text w :
  print text w =
    match next_answer w with
    | None => (Ok tt, do_write (text +:+ newline) (answered (EvPrint text) w))
    | Some e => (Raise e, answered (EvPrint text) w)
    end.
Proof. reflexivity. Qed.

Lemma stdout_log_cases kw w :
  StdoutSink.log kw w =
    match Json.dumps kw with
    | Raise e => (Raise e, w)
    | Ok text => print text w
    end.
Proof.
  unfold StdoutSink.log, bind, lift_result. by destruct (Json.dumps kw).
Qed.

(* ===================================================================== *)
(** * [StdoutSink.log]: failures and sequences *)
(* ===================================================================== *)



(** X2.  [StdoutSink.log] has no handler of its own, so a call returns
    normally only when every step succeeded: the fields were bound, the
    event was serialized and the write to standard output succeeded, and
    then the output has grown by the JSON text and a newline.  When the
    call raises, standard output and the lists are as before.  (Stated
    for events whose integers are within the conversion limit.) *)
Theorem StdoutSink_log_ok_only kw (w : world) :
  Limits.ints_fit_kwargs kw = true ->
  let out := Call.StdoutSink_log kw w in
  (fst out = Ok tt ->
   Call.binds kw = true /\ Payload.serializable_kwargs kw = true /\
   next_answer w = None /\
   exists text, Json.dumps kw = Ok text /\
                stdout (snd out) = stdout w +:+ text +:+ newline) /\
  (forall e, fst out = Raise e ->
             stdout (snd out) = stdout w /\ store (snd out) = store w).
Proof.
  intros _ out. unfold out. clear out.
  destruct (Call.binds kw) eqn:Hb.
  - rewrite (call_StdoutSink_log_binds _ _ Hb), stdout_log_cases.
    destruct (Json.dumps kw) as [text|e0] eqn:Hd.
    + rewrite print_cases. destruct (next_answer w) as [e0|] eqn:Hn.
      * split; [discriminate|]. intros e _. done.
      * split; [|discriminate]. intros _. split; [done|].
        split; [apply dumps_serializable; eauto|]. split; [done|].
        by exists text.
    + split; [discriminate|]. by intros e _.
  - destruct (call_StdoutSink_log_fails _ w Hb) as [m ->].
    split; [discriminate|]. by intros e _.
Qed.

Lemma StdoutSink_log_ok_only_witness :
  Call.binds Example.event = true /\
  stdout (snd (Call.StdoutSink_log Example.event (Example.boot [])))
    = "" +:+ Example.event_text +:+ newline.
Proof.
  destruct (StdoutSink_log_ok_only Example.event (Example.boot []))
    as (Hok & _).
  - vm_compute. reflexivity.
  - destruct Hok as (Hb & _ & _ & text & Hd & Hout).
    + vm_compute. reflexivity.
    + split; [exact Hb|].
      rewrite example_event_dumps in Hd. injection Hd as <-. exact Hout.
Defined.

(** X3.  Two events logged one after the other, in calls that bind their
    fields, both serializable (their integers within the conversion
    limit) and both writes succeeding, give two lines on standard output,
    in the order of the calls, and nothing else. *)
Theorem StdoutSink_log_twice kw1 kw2 t1 t2 (w : world) :
  Call.binds kw1 = true ->
  Call.binds kw2 = true ->
  Limits.ints_fit_kwargs kw1 = true ->
  Limits.ints_fit_kwargs kw2 = true ->
  Json.dumps kw1 = Ok t1 ->
  Json.dumps kw2 = Ok t2 ->
  answer_at 0 w = None ->
  answer_at 1 w = None ->
  exists w2,
    (do _ <- Call.StdoutSink_log kw1; Call.StdoutSink_log kw2) w = (Ok tt, w2) /\
    stdout w2 = stdout w +:+ (t1 +:+ newline) +:+ (t2 +:+ newline) /\
    trace w2 = (trace w ++ [EvPrint t1 None; EvPrint t2 None])%list /\
    store w2 = store w.
Proof.
  intros B1 B2 _ _ H1 H2 A0 A1. rewrite answer_at_0 in A0.
  rewrite <- (answer_at_answered 0 (EvPrint t1)), answer_at_0 in A1.
  set (w1 := do_write (t1 +:+ newline) (answered (EvPrint t1) w)).
  assert (L1 : Call.StdoutSink_log kw1 w = (Ok tt, w1)).
  { by rewrite (call_StdoutSink_log_binds _ _ B1), stdout_log_cases, H1,
      print_cases, A0. }
  assert (A1' : next_answer w1 = None) by exact A1.
  assert (L2 : Call.StdoutSink_log kw2 w1
               = (Ok tt, do_write (t2 +:+ newline) (answered (EvPrint t2) w1))).
  { by rewrite (call_StdoutSink_log_binds _ _ B2), stdout_log_cases, H2,
      print_cases, A1'. }
  eexists. split.
  { unfold bind. rewrite L1. exact L2. }
  unfold answered. cbn [stdout trace store do_write]. rewrite A1'.
  unfold w1, answered. cbn [stdout trace store do_write]. rewrite A0.
  rewrite <- app_assoc, string_app_assoc. done.
Qed.

Lemma StdoutSink_log_twice_witness :
  exists w2,
    (do _ <- Call.StdoutSink_log Example.event;
     Call.StdoutSink_log Example.event)
      (Example.boot []) = (Ok tt, w2) /\
    stdout w2 =
      "" +:+ (Example.event_text +:+ newline) +:+ (Example.event_text +:+ newline).
Proof.
  destruct (StdoutSink_log_twice Example.event Example.event
              Example.event_text Example.event_text (Example.boot []))
    as (w2 & H & Hout & _);
    [vm_compute; reflexivity .. |].
  exists w2. split; [exact H|exact Hout].
Defined.

(* ===================================================================== *)
(** * The steps of [RedisSink.log], whatever their outcome *)
(* ===================================================================== *)

Lemma count_le_app_one (p : event -> bool) (t : list event) ev :
  (count p (t ++ [ev]) <= 1 + count p t)%nat.
Proof. rewrite count_app, count_one. destruct (p ev); lia. Qed.

(** One append attempt: the sink, the files and standard output are as
    before; the only list that can change is the list of the key, by one
    element at its tail; the trace grows by one push at most. *)
Lemma rpush_event_frame kw (s : RedisSink.t) w r st1 :
  rpush_event kw (s, w) = (r, st1) ->
  fst st1 = s /\ files (snd st1) = files w /\ stdout (snd st1) = stdout w /\
  (store (snd st1) = store w \/
   exists text, Json.dumps kw = Ok text /\
                store (snd st1) = push (key s) text (store w)) /\
  (forall p, (count p (trace (snd st1)) <= 1 + count p (trace w))%nat) /\
  (forall p, (forall c k v x, p (EvRpush c k v x) = false) ->
             count p (trace (snd st1)) = count p (trace w)).
Proof.
  intros H. destruct r as [n|e].
  - destruct (rpush_event_ok _ _ _ _ _ H) as (c & text & Hc & Hd & Hs & Hr).
    destruct (rpush_ok _ _ _ _ _ _ Hr) as (Ht & Hst & Ho & Hf & _).
    rewrite Ht. repeat split; try done.
    + right. exists text. done.
    + intros p. apply count_le_app_one.
    + intros p Hp. rewrite count_app, count_one, Hp. lia.
  - destruct (rpush_event_raise _ _ _ _ _ H) as (Hs & Hst & Ho & Hcase).
    assert (Hf : files (snd st1) = files w).
    { destruct Hcase as [[-> _]|(c & text & _ & _ & Hr & _)]; [done|].
      by destruct (rpush_raise _ _ _ _ _ _ Hr) as (_ & _ & _ & Hf & _). }
    repeat split; try done.
    + by left.
    + intros p. destruct Hcase as [[-> _]|(c & text & _ & _ & _ & ->)]; [lia|].
      apply count_le_app_one.
    + intros p Hp.
      by apply (rpush_event_raise_count _ _ _ _ _ p (fun c k v x => Hp c k v (Some x)) H).
Qed.

(** A reconnect: the configuration, the lists, the files and standard
    output are as before; a sink that had a connection still has one; the
    trace grows by the construction of a client and at most one ping. *)
Lemma connect_frame (s : RedisSink.t) w r st1 :
  _connect (s, w) = (r, st1) ->
  host (fst st1) = host s /\ port (fst st1) = port s /\ key (fst st1) = key s /\
  (is_Some (_conn s) -> is_Some (_conn (fst st1))) /\
  store (snd st1) = store w /\ files (snd st1) = files w /\
  stdout (snd st1) = stdout w /\
  (forall p, (count p (trace (snd st1)) <= 2 + count p (trace w))%nat) /\
  (forall p, (forall c x, p (EvStrictRedis c x) = false) ->
             (forall c x, p (EvPing c x) = false) ->
             count p (trace (snd st1)) = count p (trace w)).
Proof.
  intros H. destruct (connect_inv _ _ _ _ H) as (Hh & Hp & Hk & Hst & Ho & Hcnt).
  rewrite connect_cases in H. cbv zeta in H.
  destruct (next_answer w) eqn:E1; [|destruct (hd None (tl (script w))) eqn:E2];
    injection H as <- <-; simpl; repeat split; try done; try (by eauto);
    intros p; rewrite ?count_app, ?count_one;
    repeat match goal with |- context [if ?b then _ else _] => destruct b end; lia.
Qed.

(** Every way [log] can end, by the steps it went through. *)
Lemma log_inv kw (s : RedisSink.t) w r st' :
  RedisSink.log kw (s, w) = (r, st') ->
  (exists n, rpush_event kw (s, w) = (Ok n, st') /\ r = Ok tt) \/
  (exists e, rpush_event kw (s, w) = (Raise e, st') /\
             is_ConnectionError e = false /\ r = Raise e) \/
  (exists e1 w1,
      rpush_event kw (s, w) = (Raise e1, (s, w1)) /\
      is_ConnectionError e1 = true /\
      ((exists sc n,
           _connect (s, w1) = (Ok tt, sc) /\
           rpush_event kw
             (fst sc, record (EvLog "output" INFO (reconnected_msg (host s) (port s)))
                             (snd sc)) = (Ok n, st') /\
           r = Ok tt) \/
       (exists e2 st2,
           (_connect (s, w1) = (Raise e2, st2) \/
            exists sc,
              _connect (s, w1) = (Ok tt, sc) /\
              rpush_event kw
                (fst sc, record (EvLog "output" INFO (reconnected_msg (host s) (port s)))
                                (snd sc)) = (Raise e2, st2)) /\
           (is_Exception e2 = true /\ r = Ok tt /\
            st' = (fst st2, record (EvLog "output" ERROR (error_msg e2)) (snd st2))
            \/
            is_Exception e2 = false /\ r = Raise e2 /\ st' = st2)))).
Proof.
  rewrite log_unfold.
  destruct (rpush_event kw (s, w)) as [[n|e1] st1] eqn:H1.
  - intros [= <- <-]. left. eauto.
  - destruct (is_ConnectionError e1) eqn:He1.
    + destruct (rpush_event_raise _ _ _ _ _ H1) as (Hs1 & _).
      destruct st1 as [s1 w1]. simpl in Hs1. subst s1.
      rewrite retry_unfold.
      destruct (_connect (s, w1)) as [[[]|e2] sc] eqn:Hc.
      * destruct (connect_inv _ _ _ _ Hc) as (Hh & Hp & _).
        cbv zeta. rewrite Hh, Hp.
        destruct (rpush_event kw (fst sc, _)) as [[n|e2] st3] eqn:H3.
        -- intros [= <- <-]. right. right. exists e1, w1.
           split; [done|]. split; [done|]. left. exists sc, n. done.
        -- intros H. right. right. exists e1, w1.
           split; [done|]. split; [done|]. right. exists e2, st3.
           split; [right; exists sc; done|].
           destruct (is_Exception e2); injection H as <- <-; [left|right]; done.
      * intros H. right. right. exists e1, w1.
        split; [done|]. split; [done|]. right. exists e2, sc.
        split; [by left|].
        destruct (is_Exception e2); injection H as <- <-; [left|right]; done.
    + intros [= <- <-]. right. left. exists e1. done.
Qed.

Lemma next_answer_answered ev w : next_answer (answered ev w) = answer_at 1 w.
Proof. by rewrite <- answer_at_0, answer_at_answered. Qed.

Lemma second_answer_answered ev w :
  hd None (tl (script (answered ev w))) = answer_at 2 w.
Proof. by rewrite <- answer_at_1, answer_at_answered. Qed.

(** The first attempt of a sink that has a connection, on an event that
    serializes: one push through the stored client. *)
Lemma rpush_event_connected kw (s : RedisSink.t) w c text :
  _conn s = Some c ->
  Json.dumps kw = Ok text ->
  rpush_event kw (s, w) =
    match next_answer w with
    | None =>
        let w1 := do_push (key s) text (answered (EvRpush c (key s) text) w) in
        (Ok (length (default [] (store w1 !! key s))), (s, w1))
    | Some e => (Raise e, (s, answered (EvRpush c (key s) text) w))
    end.
Proof.
  intros Hc Hd. rewrite rpush_event_cases, Hc, Hd, rpush_cases.
  by destruct (next_answer w).
Qed.

(* ===================================================================== *)
(** * [RedisSink.log]: what it does in every case *)
(* ===================================================================== *)




(** X6.  One call of [log] appends the event at most once.  In every
    case the files and standard output are untouched, and the lists of
    the server are either as before or the list of the sink's key has
    grown by the JSON text of the event, once; when [log] raises, nothing
    was appended. *)
Theorem RedisSink_log_at_most_once kw (s : RedisSink.t) (w : world) :
  let out := RedisSink.log kw (s, w) in
  let w' := snd (snd out) in
  files w' = files w /\ stdout w' = stdout w /\
  (store w' = store w \/
   exists text, Json.dumps kw = Ok text /\ store w' = push (key s) text (store w)) /\
  (forall e, fst out = Raise e -> store w' = store w).
Proof.
  intros out w'. unfold w', out.
  destruct (RedisSink.log kw (s, w)) as [r st'] eqn:Hlog. simpl.
  apply log_inv in Hlog
    as [(n & H1 & ->)|[(e & H1 & _ & ->)|(e1 & w1 & H1 & _ & Hretry)]].
  - destruct (rpush_event_frame _ _ _ _ _ H1) as (_ & Hf & Ho & Hst & _).
    repeat split; try done.
  - destruct (rpush_event_frame _ _ _ _ _ H1) as (_ & Hf & Ho & _).
    destruct (rpush_event_raise _ _ _ _ _ H1) as (_ & Hst & _).
    repeat split; try done. by left.
  - destruct (rpush_event_frame _ _ _ _ _ H1) as (_ & Hf1 & Ho1 & _).
    destruct (rpush_event_raise _ _ _ _ _ H1) as (_ & Hst1 & _).
    simpl in Hf1, Ho1, Hst1.
    destruct Hretry as [(sc & n & Hc & H3 & ->)|(e2 & st2 & Hpath & Hfin)].
    + destruct (connect_frame _ _ _ _ Hc) as (_ & _ & Hk & _ & Hstc & Hfc & Hoc & _).
      destruct (rpush_event_frame _ _ _ _ _ H3) as (_ & Hf3 & Ho3 & Hst3 & _).
      simpl in Hf3, Ho3, Hst3. rewrite Hk, Hstc, Hst1 in Hst3.
      repeat split; congruence.
    + assert (Hst2 : files (snd st2) = files w /\ stdout (snd st2) = stdout w /\
                     store (snd st2) = store w).
      { destruct Hpath as [Hc|(sc & Hc & H3)].
        - destruct (connect_frame _ _ _ _ Hc) as (_ & _ & _ & _ & Hstc & Hfc & Hoc & _).
          repeat split; congruence.
        - destruct (connect_frame _ _ _ _ Hc) as (_ & _ & _ & _ & Hstc & Hfc & Hoc & _).
          destruct (rpush_event_frame _ _ _ _ _ H3) as (_ & Hf3 & Ho3 & _).
          destruct (rpush_event_raise _ _ _ _ _ H3) as (_ & Hst3 & _).
          simpl in Hf3, Ho3, Hst3. repeat split; congruence. }
      destruct Hst2 as (Hf2 & Ho2 & Hs2).
      destruct Hfin as [(_ & _ & ->)|(_ & _ & ->)]; simpl;
        repeat split; try done; by left.
Qed.

(** X7.  No event is dropped silently: when [log] returns normally,
    either the JSON text of the event is at the tail of the list and no
    error line was written, or the lists are as before and exactly one
    error line was written. *)
Theorem RedisSink_log_no_silent_drop kw (s : RedisSink.t) (w : world) st' :
  RedisSink.log kw (s, w) = (Ok tt, st') ->
  (exists text,
      Json.dumps kw = Ok text /\
      store (snd st') = push (key s) text (store w) /\
      count (is_log ERROR) (trace (snd st')) = count (is_log ERROR) (trace w)) \/
  (store (snd st') = store w /\
   count (is_log ERROR) (trace (snd st')) = S (count (is_log ERROR) (trace w))).
Proof.
  intros Hlog.
  apply log_inv in Hlog
    as [(n & H1 & _)|[(e & _ & _ & [=])|(e1 & w1 & H1 & _ & Hretry)]].
  - left. destruct (rpush_event_ok _ _ _ _ _ H1) as (c & text & _ & Hd & _ & Hr).
    destruct (rpush_ok _ _ _ _ _ _ Hr) as (Ht & Hst & _).
    exists text. rewrite Ht, count_app, count_one. simpl.
    repeat split; first [done|lia].
  - destruct (rpush_event_raise _ _ _ _ _ H1) as (_ & Hst1 & _).
    pose proof (rpush_event_raise_count _ _ _ _ _ (is_log ERROR)
                  (fun _ _ _ _ => eq_refl) H1) as E1.
    simpl in Hst1, E1.
    assert (Hconn : forall r2 sc, _connect (s, w1) = (r2, sc) ->
              key (fst sc) = key s /\ store (snd sc) = store w /\
              count (is_log ERROR) (trace (snd sc)) = count (is_log ERROR) (trace w)).
    { intros r2 sc Hc.
      destruct (connect_frame _ _ _ _ Hc) as (_ & _ & Hk & _ & Hstc & _ & _ & _ & Heq).
      rewrite (Heq (is_log ERROR)) by done. repeat split; congruence. }
    destruct Hretry as [(sc & n & Hc & H3 & _)|(e2 & st2 & Hpath & Hfin)].
    + left. destruct (Hconn _ _ Hc) as (Hk & Hstc & Ec).
      destruct (rpush_event_ok _ _ _ _ _ H3) as (c & text & _ & Hd & _ & Hr).
      destruct (rpush_ok _ _ _ _ _ _ Hr) as (Ht & Hst & _).
      simpl in Ht, Hst. exists text.
      rewrite Ht, Hst, !count_app, !count_one, Hk, Hstc, Ec. simpl.
      repeat split; first [done|lia].
    + right.
      assert (Hst2 : store (snd st2) = store w /\
                count (is_log ERROR) (trace (snd st2)) = count (is_log ERROR) (trace w)).
      { destruct Hpath as [Hc|(sc & Hc & H3)].
        - destruct (Hconn _ _ Hc) as (_ & ? & ?). done.
        - destruct (Hconn _ _ Hc) as (_ & Hstc & Ec).
          destruct (rpush_event_raise _ _ _ _ _ H3) as (_ & Hst3 & _).
          pose proof (rpush_event_raise_count _ _ _ _ _ (is_log ERROR)
                        (fun _ _ _ _ => eq_refl) H3) as E3.
          simpl in Hst3, E3. rewrite count_app, count_one in E3. simpl in E3.
          split; [congruence|lia]. }
      destruct Hst2 as (Hs2 & E2).
      destruct Hfin as [(_ & _ & ->)|(_ & [=] & _)]. simpl.
      rewrite count_app, count_one. simpl. split; [done|lia].
Qed.

Lemma RedisSink_log_no_silent_drop_witness :
  store (record (EvLog "output" ERROR "Redis: Connection refused")
                Example.after_refused) = store (Example.built []) /\
  count (is_log ERROR)
    (trace (record (EvLog "output" ERROR "Redis: Connection refused")
                   Example.after_refused)) = 1%nat.
Proof.
  assert (H : RedisSink.log Example.event
                (Example.sink,
                 Example.built [Some Example.reset; None; Some Example.refused])
              = (Ok tt, (Example.sink1,
                         record (EvLog "output" ERROR "Redis: Connection refused")
                                Example.after_refused)))
    by (vm_compute; reflexivity).
  destruct (RedisSink_log_no_silent_drop _ _ _ _ H) as [(text & _ & Hst & _)|[Hst Hc]].
  - exfalso. revert Hst. vm_compute. discriminate.
  - split; [exact Hst|exact Hc].
Defined.

(** X8.  [log] never changes the configuration of the sink, and a sink
    that has a connection still has one afterwards, whatever happened:
    host, port and key are set once by the constructor. *)
Theorem RedisSink_log_keeps_config kw (s : RedisSink.t) (w : world) :
  let s' := fst (snd (RedisSink.log kw (s, w))) in
  host s' = host s /\ port s' = port s /\ key s' = key s /\
  (is_Some (_conn s) -> is_Some (_conn s')).
Proof.
  intros s'. unfold s'.
  destruct (RedisSink.log kw (s, w)) as [r st'] eqn:Hlog. simpl.
  apply log_inv in Hlog
    as [(n & H1 & _)|[(e & H1 & _)|(e1 & w1 & H1 & _ & Hretry)]].
  - destruct (rpush_event_frame _ _ _ _ _ H1) as (-> & _). done.
  - destruct (rpush_event_frame _ _ _ _ _ H1) as (-> & _). done.
  - assert (Hconn : forall r2 sc, _connect (s, w1) = (r2, sc) ->
              host (fst sc) = host s /\ port (fst sc) = port s /\
              key (fst sc) = key s /\ (is_Some (_conn s) -> is_Some (_conn (fst sc)))).
    { intros r2 sc Hc.
      destruct (connect_frame _ _ _ _ Hc) as (? & ? & ? & ? & _). done. }
    destruct Hretry as [(sc & n & Hc & H3 & _)|(e2 & st2 & Hpath & Hfin)].
    + destruct (rpush_event_frame _ _ _ _ _ H3) as (-> & _). simpl. eauto.
    + assert (H2 : host (fst st2) = host s /\ port (fst st2) = port s /\
                   key (fst st2) = key s /\
                   (is_Some (_conn s) -> is_Some (_conn (fst st2)))).
      { destruct Hpath as [Hc|(sc & Hc & H3)]; [eauto|].
        destruct (rpush_event_frame _ _ _ _ _ H3) as (-> & _). simpl. eauto. }
      by destruct Hfin as [(_ & _ & ->)|(_ & _ & ->)].
Qed.

(* ===================================================================== *)
(** * [RedisSink.log] as a table over the answers of the environment *)
(* ===================================================================== *)

(** The whole of [log] for a sink that has a connection and an event
    that serializes, by the answers to the calls it makes. *)
Lemma log_connected_cases kw (s : RedisSink.t) w c text :
  _conn s = Some c ->
  Json.dumps kw = Ok text ->
  let k := key s in
  let c2 := Client (next_id w) (host s) (port s) 0 30 in
  let s2 := with_conn s c2 in
  let w1 := answered (EvRpush c k text) w in
  let w2 := answered (EvPing c2) (do_alloc (answered (EvStrictRedis c2) w1)) in
  let w3 := record (EvLog "output" INFO (reconnected_msg (host s) (port s))) w2 in
  let finish (e2 : exn) (st : RedisSink.state) :=
    if is_Exception e2
    then (Ok tt, (fst st, record (EvLog "output" ERROR (error_msg e2)) (snd st)))
    else (Raise e2, st) in
  RedisSink.log kw (s, w) =
    match answer_at 0 w with
    | None => (Ok tt, (s, do_push k text w1))
    | Some e1 =>
        if is_ConnectionError e1 then
          match answer_at 1 w with
          | Some e2 => finish e2 (s, answered (EvStrictRedis c2) w1)
          | None =>
              match answer_at 2 w with
              | Some e2 => finish e2 (s2, w2)
              | None =>
                  match answer_at 3 w with
                  | Some e2 => finish e2 (s2, answered (EvRpush c2 k text) w3)
                  | None =>
                      (Ok tt, (s2, do_push k text (answered (EvRpush c2 k text) w3)))
                  end
              end
          end
        else (Raise e1, (s, w1))
    end.
Proof.
  intros Hc Hd k c2 s2 w1 w2 w3 finish.
  rewrite log_unfold, (rpush_event_connected _ _ _ _ _ Hc Hd), answer_at_0.
  destruct (next_answer w) as [e1|] eqn:A0; [|reflexivity].
  destruct (is_ConnectionError e1); [|reflexivity].
  rewrite retry_unfold, connect_cases. cbv zeta.
  rewrite next_answer_answered, second_answer_answered.
  change (next_id (answered (EvRpush c (key s) text) w)) with (next_id w).
  fold c2 k w1.
  destruct (answer_at 1 w) as [e2|] eqn:A1; [reflexivity|].
  destruct (answer_at 2 w) as [e2|] eqn:A2; [reflexivity|].
  fold s2 w2. cbn [fst snd].
  assert (Hc2 : _conn s2 = Some c2) by reflexivity.
  assert (Hh : host s2 = host s) by reflexivity.
  assert (Hp : port s2 = port s) by reflexivity.
  assert (Hk : key s2 = k) by reflexivity.
  rewrite Hh, Hp. fold w3.
  rewrite (rpush_event_connected _ _ _ _ _ Hc2 Hd), Hk.
  assert (A3 : next_answer w3 = answer_at 3 w).
  { unfold w3, w2, w1, record, do_alloc. cbn [script].
    change (next_answer (World ?a ?b ?c0 ?d ?e ?f)) with (hd None f).
    unfold answered. cbn [script].
    unfold answer_at. by destruct (script w) as [|x0 [|x1 [|x2 [|x3 l]]]]. }
  rewrite A3.
  destruct (answer_at 3 w) as [e2|]; reflexivity.
Qed.

Lemma answer_at_record n ev w : answer_at n (record ev w) = answer_at n w.
Proof. reflexivity. Qed.

Lemma answer_at_do_alloc n w : answer_at n (do_alloc w) = answer_at n w.
Proof. reflexivity. Qed.

Lemma answer_at_do_push n k v w : answer_at n (do_push k v w) = answer_at n w.
Proof. reflexivity. Qed.

(** X9.  For a sink that has a connection and a call that binds its
    fields, the event being serializable (its integers within the
    conversion limit),
    what [log] returns or raises is decided by the answers to at most
    four calls: it raises the error of the first push when that is not a
    [ConnectionError], it raises the first error of the retry path when
    that is not an [Exception], and it returns normally otherwise. *)
Theorem RedisSink_log_result_table kw (s : RedisSink.t) (w : world) :
  is_Some (_conn s) ->
  Call.binds kw = true ->
  Limits.ints_fit_kwargs kw = true ->
  Payload.serializable_kwargs kw = true ->
  fst (Call.RedisSink_log kw (s, w)) =
    log_result (answer_at 0 w) (answer_at 1 w) (answer_at 2 w) (answer_at 3 w).
Proof.
  intros [c Hc] Hb _ Hs. apply dumps_serializable in Hs as [text Hd].
  rewrite (call_RedisSink_log_binds _ _ Hb).
  rewrite (log_connected_cases _ _ _ _ _ Hc Hd). cbv zeta.
  unfold log_result, retry_error.
  destruct (answer_at 0 w) as [e1|]; [|reflexivity].
  destruct (is_ConnectionError e1); [|reflexivity].
  destruct (answer_at 1 w) as [e2|]; [by destruct (is_Exception e2)|].
  destruct (answer_at 2 w) as [e2|]; [by destruct (is_Exception e2)|].
  destruct (answer_at 3 w) as [e2|]; [by destruct (is_Exception e2)|reflexivity].
Qed.

Lemma RedisSink_log_result_table_witness :
  fst (Call.RedisSink_log Example.event
         (Example.sink, Example.built [Some Example.reset; None; Some KeyboardInterrupt]))
  = Raise KeyboardInterrupt.
Proof.
  rewrite (RedisSink_log_result_table Example.event Example.sink
             (Example.built [Some Example.reset; None; Some KeyboardInterrupt])).
  - reflexivity.
  - by exists Example.conn0.
  - vm_compute. reflexivity.
  - vm_compute. reflexivity.
  - vm_compute. reflexivity.
Defined.

(** X10.  Two events logged one after the other on a healthy connection,
    in calls that bind their fields (the integers of the events within
    the conversion limit), are both appended, in the order of the calls,
    through the same client; the same event logged twice gives two
    elements. *)
Theorem RedisSink_log_twice kw1 kw2 t1 t2 (s : RedisSink.t) (w : world) c :
  Call.binds kw1 = true ->
  Call.binds kw2 = true ->
  Limits.ints_fit_kwargs kw1 = true ->
  Limits.ints_fit_kwargs kw2 = true ->
  _conn s = Some c ->
  Json.dumps kw1 = Ok t1 ->
  Json.dumps kw2 = Ok t2 ->
  answer_at 0 w = None ->
  answer_at 1 w = None ->
  exists w2,
    (do _ <- Call.RedisSink_log kw1; Call.RedisSink_log kw2) (s, w)
      = (Ok tt, (s, w2)) /\
    trace w2 = (trace w ++ [EvRpush c (key s) t1 None;
                            EvRpush c (key s) t2 None])%list /\
    store w2 !! key s = Some (default [] (store w !! key s) ++ [t1; t2])%list.
Proof.
  intros B1 B2 _ _ Hc H1 H2 A0 A1.
  set (w1 := do_push (key s) t1 (answered (EvRpush c (key s) t1) w)).
  assert (L1 : Call.RedisSink_log kw1 (s, w) = (Ok tt, (s, w1))).
  { rewrite (call_RedisSink_log_binds _ _ B1).
    rewrite (log_connected_cases _ _ _ _ _ Hc H1). cbv zeta. by rewrite A0. }
  assert (A0' : answer_at 0 w1 = None).
  { unfold w1. by rewrite answer_at_do_push, answer_at_answered. }
  assert (L2 : Call.RedisSink_log kw2 (s, w1)
               = (Ok tt, (s, do_push (key s) t2 (answered (EvRpush c (key s) t2) w1)))).
  { rewrite (call_RedisSink_log_binds _ _ B2).
    rewrite (log_connected_cases _ _ _ _ _ Hc H2). cbv zeta. by rewrite A0'. }
  eexists. split.
  { unfold bind. rewrite L1. exact L2. }
  rewrite answer_at_0 in A0, A0'.
  unfold answered. cbn [trace store do_push]. rewrite A0'.
  unfold w1, answered. cbn [trace store do_push]. rewrite A0, <- app_assoc.
  split; [reflexivity|].
  rewrite push_lookup, push_lookup. simpl. by rewrite <- app_assoc.
Qed.

Lemma RedisSink_log_twice_witness :
  exists w2,
    (do _ <- Call.RedisSink_log Example.event;
     Call.RedisSink_log Example.event)
      (Example.sink, Example.built []) = (Ok tt, (Example.sink, w2)) /\
    store w2 !! "events" = Some [Example.event_text; Example.event_text].
Proof.
  destruct (RedisSink_log_twice Example.event Example.event
              Example.event_text Example.event_text
              Example.sink (Example.built []) Example.conn0)
    as (w2 & H & _ & Hst);
    [vm_compute; reflexivity .. |].
  exists w2. split; [exact H|exact Hst].
Defined.

(** X11.  Both calls bind their fields, the integers of the events being
    within the conversion limit.  After a call whose reconnect built a
    new client and failed at
    the ping, the sink holds the new client and the next call pushes
    through it straight away: it does not reconnect again, and when the
    server answers, the second event is appended while the first one
    stays dropped. *)
Theorem RedisSink_log_after_failed_ping
    kw kw' text text' (s : RedisSink.t) (w : world) c e1 e2 :
  Call.binds kw = true ->
  Call.binds kw' = true ->
  Limits.ints_fit_kwargs kw = true ->
  Limits.ints_fit_kwargs kw' = true ->
  _conn s = Some c ->
  Json.dumps kw = Ok text ->
  Json.dumps kw' = Ok text' ->
  answer_at 0 w = Some e1 -> is_ConnectionError e1 = true ->
  answer_at 1 w = None ->
  answer_at 2 w = Some e2 -> is_Exception e2 = true ->
  answer_at 3 w = None ->
  let c2 := Client (next_id w) (host s) (port s) 0 30 in
  exists w2,
    (do _ <- Call.RedisSink_log kw; Call.RedisSink_log kw') (s, w)
      = (Ok tt, (with_conn s c2, w2)) /\
    trace w2 = (trace w ++ [EvRpush c (key s) text (Some e1);
                            EvStrictRedis c2 None;
                            EvPing c2 (Some e2);
                            EvLog "output" ERROR (error_msg e2);
                            EvRpush c2 (key s) text' None])%list /\
    store w2 !! key s = Some (default [] (store w !! key s) ++ [text'])%list.
Proof.
  intros B B' _ _ Hc Hd Hd' A0 He1 A1 A2 He2 A3 c2.
  set (wa := answered (EvRpush c (key s) text) w).
  set (wb := answered (EvPing c2) (do_alloc (answered (EvStrictRedis c2) wa))).
  set (wc := record (EvLog "output" ERROR (error_msg e2)) wb).
  assert (L1 : Call.RedisSink_log kw (s, w) = (Ok tt, (with_conn s c2, wc))).
  { rewrite (call_RedisSink_log_binds _ _ B).
    rewrite (log_connected_cases _ _ _ _ _ Hc Hd). cbv zeta.
    by rewrite A0, He1, A1, A2, He2. }
  assert (A0' : answer_at 0 wc = None).
  { unfold wc, wb, wa.
    by rewrite answer_at_record, answer_at_answered, answer_at_do_alloc,
      !answer_at_answered. }
  assert (Hc2 : _conn (with_conn s c2) = Some c2) by reflexivity.
  assert (L2 : Call.RedisSink_log kw' (with_conn s c2, wc)
               = (Ok tt, (with_conn s c2,
                          do_push (key s) text' (answered (EvRpush c2 (key s) text') wc)))).
  { rewrite (call_RedisSink_log_binds _ _ B').
    rewrite (log_connected_cases _ _ _ _ _ Hc2 Hd'). cbv zeta. by rewrite A0'. }
  eexists. split.
  { unfold bind. rewrite L1. exact L2. }
  rewrite answer_at_0 in A0, A0'.
  rewrite <- (answer_at_answered 0 (EvRpush c (key s) text)), answer_at_0 in A1.
  fold wa in A1.
  assert (A2' : next_answer (do_alloc (answered (EvStrictRedis c2) wa)) = Some e2).
  { unfold wa. by rewrite <- answer_at_0, answer_at_do_alloc, !answer_at_answered. }
  split.
  - unfold answered at 1. cbn [trace do_push]. rewrite A0'.
    unfold wc, record. cbn [trace].
    unfold wb, answered at 1. cbn [trace]. rewrite A2'.
    unfold do_alloc. cbn [trace]. unfold answered at 1. cbn [trace]. rewrite A1.
    unfold wa, answered. cbn [trace]. rewrite A0, <- !app_assoc. reflexivity.
  - cbn [store do_push]. rewrite push_lookup. reflexivity.
Qed.

Lemma RedisSink_log_after_failed_ping_witness :
  exists w2,
    (do _ <- Call.RedisSink_log Example.event;
     Call.RedisSink_log Example.event)
      (Example.sink, Example.built [Some Example.reset; None; Some Example.refused])
    = (Ok tt, (Example.sink1, w2)) /\
    store w2 !! "events" = Some [Example.event_text].
Proof.
  destruct (RedisSink_log_after_failed_ping Example.event Example.event
              Example.event_text Example.event_text Example.sink
              (Example.built [Some Example.reset; None; Some Example.refused])
              Example.conn0 Example.reset Example.refused)
    as (w2 & H & _ & Hst);
    [vm_compute; reflexivity .. | exists w2; split; [exact H|exact Hst]].
Defined.

(* ===================================================================== *)
(** * [RedisSink.ping] and [RedisSink._connect]: the calls they make *)
(* ===================================================================== *)

(** X12.  [ping] on a sink that has a connection sends one probe through
    the stored client: it returns [True] exactly when the probe succeeds
    and raises the exception of the probe otherwise, never [False]; it
    does not reconnect, log, or change the sink or the lists. *)
Theorem RedisSink_ping_spec (s : RedisSink.t) (w : world) c :
  _conn s = Some c ->
  let out := RedisSink.ping (s, w) in
  (fst out = Ok true <-> next_answer w = None) /\
  (forall e, fst out = Raise e <-> next_answer w = Some e) /\
  fst out <> Ok false /\
  fst (snd out) = s /\
  trace (snd (snd out)) = (trace w ++ [EvPing c (next_answer w)])%list /\
  store (snd (snd out)) = store w.
Proof.
  intros Hc out. unfold out. rewrite (RedisSink_ping_propagates _ _ _ Hc).
  destruct (next_answer w) as [e|] eqn:E; simpl; unfold answered; simpl; rewrite E;
    repeat split; try done; try congruence.
Qed.

Lemma RedisSink_ping_spec_witness :
  fst (RedisSink.ping (Example.sink, Example.built [Some Example.refused]))
  = Raise Example.refused.
Proof.
  destruct (RedisSink_ping_spec Example.sink
              (Example.built [Some Example.refused]) Example.conn0 eq_refl)
    as (_ & Hraise & _).
  apply Hraise. reflexivity.
Defined.

(** X13.  [_connect] builds exactly one client, for the host and port of
    the sink, database 0 and a socket timeout of 30, and pings that
    client once, only when it was built; it succeeds exactly when both
    calls succeed, and it touches neither the lists, the files nor
    standard output. *)
Theorem RedisSink_connect_calls (s : RedisSink.t) (w : world) :
  let c := Client (next_id w) (host s) (port s) 0 30 in
  let out := _connect (s, w) in
  let w' := snd (snd out) in
  trace w' =
    (trace w ++ match answer_at 0 w with
                | Some e => [EvStrictRedis c (Some e)]
                | None => [EvStrictRedis c None; EvPing c (answer_at 1 w)]
                end)%list /\
  (fst out = Ok tt <-> answer_at 0 w = None /\ answer_at 1 w = None) /\
  store w' = store w /\ files w' = files w /\ stdout w' = stdout w.
Proof.
  intros c out w'. unfold w', out.
  rewrite connect_cases, answer_at_0, answer_at_1. cbv zeta. fold c.
  destruct (next_answer w) as [e|] eqn:E1.
  - simpl. unfold answered. simpl. rewrite E1.
    repeat split; try done. intros [? _]. discriminate.
  - destruct (hd None (tl (script w))) as [e|] eqn:E2; simpl;
      unfold answered, do_alloc, next_answer in *; simpl; rewrite E1, E2, <- app_assoc;
      repeat split; try done. intros [_ ?]. discriminate.
Qed.

(* ===================================================================== *)
(** * [read_config]: the other ways it ends *)
(* ===================================================================== *)

Section ReadConfigMore.

Variable json_loads : string -> result Json.pyval.

(** X14.  When the file holds an object with both keys, [read_config]
    returns the pair of the value under [input] and the value under
    [output], in that order, and leaves the world as it was. *)
Theorem read_config_returns_input_output cfgfile content items i o (w : world) :
  files w !! cfgfile = Some content ->
  json_loads content = Ok (Json.PyDict items) ->
  dict_get (Json.str "input") items = Some i ->
  dict_get (Json.str "output") items = Some o ->
  read_config json_loads cfgfile w = (Ok (i, o), w).
Proof.
  intros Hf Hj Hi Ho. rewrite read_config_cases, Hf, Hj. unfold subscript.
  by rewrite Hi, Ho.
Qed.

(** X15.  A file that does not exist makes [read_config] raise the
    [IOError] of [open], before anything is decoded: nothing is logged
    and the process is not exited. *)
Theorem read_config_missing_file cfgfile (w : world) :
  files w !! cfgfile = None ->
  exists msg,
    read_config json_loads cfgfile w = (Raise (IOError msg), w) /\
    forall code, IOError msg <> SystemExit code.
Proof.
  intros Hf. rewrite read_config_cases, Hf. eexists. split; [reflexivity|].
  discriminate.
Qed.

(** X16.  [read_config] has one side effect only: apart from the error
    line it writes before it exits with status -1, the world after the
    call is the world before it, whatever it returns or raises. *)
Theorem read_config_footprint cfgfile (w : world) :
  let out := read_config json_loads cfgfile w in
  snd out = w \/
  (fst out = Raise (SystemExit (-1)) /\
   exists msg, snd out = record (EvLog "root" ERROR msg) w).
Proof.
  intros out. unfold out. rewrite read_config_cases.
  destruct (files w !! cfgfile) as [content|]; [|by left].
  destruct (json_loads content) as [cfg|e].
  - destruct (subscript cfg "input"); [|by left].
    destruct (subscript cfg "output"); by left.
  - destruct (is_ValueError e); [|by left].
    right. split; [reflexivity|]. eauto.
Qed.

End ReadConfigMore.

Lemma read_config_returns_input_output_witness :
  read_config Decoder.loads "logstash.json"
    (Example.with_config
       ("{" +:+ dquote +:+ "output" +:+ dquote +:+ ": [1], "
            +:+ dquote +:+ "input" +:+ dquote +:+ ": []}"))
  = (Ok (Json.PyList [], Json.PyList [Json.PyInt 1]),
     Example.with_config
       ("{" +:+ dquote +:+ "output" +:+ dquote +:+ ": [1], "
            +:+ dquote +:+ "input" +:+ dquote +:+ ": []}")).
Proof.
  apply (read_config_returns_input_output Decoder.loads "logstash.json"
           ("{" +:+ dquote +:+ "output" +:+ dquote +:+ ": [1], "
                +:+ dquote +:+ "input" +:+ dquote +:+ ": []}")
           [(Json.KStr (Json.str "output"), Json.PyList [Json.PyInt 1]);
            (Json.KStr (Json.str "input"), Json.PyList [])]).
  - vm_compute. reflexivity.
  - vm_compute. reflexivity.
  - vm_compute. reflexivity.
  - vm_compute. reflexivity.
Defined.

Lemma read_config_missing_file_witness :
  exists msg,
    read_config Decoder.loads "other.json" (Example.with_config "{}")
    = (Raise (IOError msg), Example.with_config "{}").
Proof.
  destruct (read_config_missing_file Decoder.loads "other.json"
              (Example.with_config "{}")) as (msg & H & _).
  - vm_compute. reflexivity.
  - exists msg. exact H.
Defined.

Lemma read_config_malformed_witness :
  read_config Decoder.loads "logstash.json" (Example.with_config "{")
  = (Raise (SystemExit (-1)),
     record (EvLog "root" ERROR "Could not read config file: Expecting value")
            (Example.with_config "{")).
Proof.
  apply (read_config_malformed Decoder.loads "logstash.json" "{" "Expecting value").
  - vm_compute. reflexivity.
  - vm_compute. reflexivity.
Defined.

Lemma read_config_exit_only_malformed_witness :
  exists e,
    Decoder.loads "{" = Raise e /\
    (is_ValueError e = true /\ (-1 = -1)%Z \/ e = SystemExit (-1)).
Proof.
  apply (read_config_exit_only_malformed Decoder.loads "logstash.json" "{" (-1)
           (Example.with_config "{")
           (record (EvLog "root" ERROR "Could not read config file: Expecting value")
                   (Example.with_config "{"))).
  - vm_compute. reflexivity.
  - vm_compute. reflexivity.
Defined.


(* ===================================================================== *)
(** * The text of [json.dumps] is printable ASCII *)
(* ===================================================================== *)

Lemma ascii_text_app a b :
  Payload.ascii_text (a +:+ b) = Payload.ascii_text a && Payload.ascii_text b.
Proof.
  induction a as [|x a IH]; [reflexivity|].
  change (Payload.ascii_text (String x a +:+ b))
    with (((32 <=? N_of_ascii x)%N && (N_of_ascii x <=? 126)%N)
          && Payload.ascii_text (a +:+ b)).
  rewrite IH. simpl. by rewrite andb_assoc.
Qed.

Lemma ascii_hex_digit n :
  ((32 <=? N_of_ascii (Json.hex_digit n))%N
   && (N_of_ascii (Json.hex_digit n) <=? 126)%N) = true.
Proof.
  unfold Json.hex_digit.
  assert (H : (N.to_nat (n mod 16) < 16)%nat).
  { pose proof (N.mod_upper_bound n 16). lia. }
  revert H. generalize (N.to_nat (n mod 16)). intros m H.
  do 16 (destruct m as [|m]; [reflexivity|]). lia.
Qed.

Lemma ascii_hex4 n : Payload.ascii_text (Json.hex4 n) = true.
Proof. unfold Json.hex4. simpl. by rewrite !ascii_hex_digit. Qed.

Lemma ascii_escape_char c : Payload.ascii_text (Json.escape_char c) = true.
Proof.
  unfold Json.escape_char.
  repeat match goal with
         | |- context [(c =? ?k)%N] => destruct (c =? k)%N; [reflexivity|]
         end.
  destruct ((32 <=? c)%N && (c <=? 126)%N) eqn:Hp.
  - pose proof Hp as Hp'. apply andb_true_iff in Hp' as [H1 H2].
    apply N.leb_le in H1. apply N.leb_le in H2.
    simpl. rewrite N_ascii_embedding by lia. by rewrite Hp.
  - destruct (c <? 65536)%N; rewrite !ascii_text_app, !ascii_hex4; reflexivity.
Qed.

Lemma ascii_escape s : Payload.ascii_text (Json.escape s) = true.
Proof.
  induction s as [|c s IH]; [reflexivity|].
  simpl. by rewrite ascii_text_app, ascii_escape_char, IH.
Qed.

Lemma ascii_basestring s :
  Payload.ascii_text (Json.encode_basestring_ascii s) = true.
Proof.
  unfold Json.encode_basestring_ascii. by rewrite !ascii_text_app, ascii_escape.
Qed.

Lemma ascii_uint d : Payload.ascii_text (NilEmpty.string_of_uint d) = true.
Proof. induction d; simpl; auto. Qed.

Lemma ascii_int_repr z : Payload.ascii_text (int_repr z) = true.
Proof.
  unfold int_repr, NilZero.string_of_int, NilZero.string_of_uint.
  destruct (Z.to_int z) as [d|d]; destruct d; simpl; auto using ascii_uint.
Qed.

Lemma ascii_floatstr r :
  Payload.ascii_text r = true -> Payload.ascii_text (Json.floatstr r) = true.
Proof.
  intros H. unfold Json.floatstr.
  repeat match goal with
         | |- context [String.eqb r ?k] => destruct (String.eqb r k); [reflexivity|]
         end.
  exact H.
Qed.

Lemma ascii_encode_key k text :
  Payload.ascii_key k = true -> Json.encode_key k = Ok text ->
  Payload.ascii_text text = true.
Proof.
  destruct k as [s|z|r|[]| |t]; simpl; intros Hp [= <-]; try reflexivity.
  - apply ascii_basestring.
  - by rewrite !ascii_text_app, ascii_int_repr.
  - by rewrite !ascii_text_app, ascii_floatstr.
Qed.

Lemma ascii_join sep parts :
  Payload.ascii_text sep = true ->
  Forall (fun p => Payload.ascii_text p = true) parts ->
  Payload.ascii_text (Json.join sep parts) = true.
Proof.
  intros Hsep. induction 1 as [|p rest Hp Hrest IH]; [reflexivity|].
  destruct rest as [|q rest]; [exact Hp|].
  change (Json.join sep (p :: q :: rest))
    with (p +:+ sep +:+ Json.join sep (q :: rest)).
  by rewrite !ascii_text_app, Hp, Hsep, IH.
Qed.

Lemma ascii_encode o :
  forall text,
    Payload.ascii_floats o = true -> Json.encode o = Ok text ->
    Payload.ascii_text text = true.
Proof.
  induction o as [|b|z|r|s|items IH|items IH|t] using pyval_nested_ind;
    intros text Hp He; simpl in He.
  - by injection He as <-.
  - destruct b; by injection He as <-.
  - injection He as <-. apply ascii_int_repr.
  - injection He as <-. by apply ascii_floatstr.
  - injection He as <-. apply ascii_basestring.
  - destruct (Json.collect (map Json.encode items)) as [parts|] eqn:Hc; [|discriminate].
    injection He as <-. rewrite !ascii_text_app, andb_true_r. simpl.
    apply ascii_join; [reflexivity|].
    simpl in Hp. apply forallb_Forall_true in Hp.
    apply collect_ok_inv in Hc.
    induction Hc as [|x t l ps Hx Hl IHl]; [constructor|].
    inversion IH; subst. inversion Hp; subst. constructor; eauto.
  - destruct (Json.collect _) as [parts|] eqn:Hc; [|discriminate].
    injection He as <-. rewrite !ascii_text_app, andb_true_r. simpl.
    apply ascii_join; [reflexivity|].
    simpl in Hp. apply forallb_Forall_true in Hp.
    apply collect_ok_inv in Hc.
    induction Hc as [|[k x] t l ps Hx Hl IHl]; [constructor|].
    inversion IH as [|? ? IHx IHrest]; subst. inversion Hp as [|? ? Hpx Hprest]; subst.
    constructor; [|eauto].
    simpl in Hx, Hpx, IHx. apply andb_true_iff in Hpx as [Hpk Hpv].
    destruct (Json.encode_key k) as [sk|] eqn:Ek; [|discriminate]. simpl in Hx.
    destruct (Json.encode x) as [sv|] eqn:Ev; [|discriminate]. simpl in Hx.
    injection Hx as <-. rewrite !ascii_text_app.
    by rewrite (ascii_encode_key _ _ Hpk Ek), (IHx _ Hpv eq_refl).
  - discriminate.
Qed.

(** X17.  What [StdoutSink.log] writes is one line of printable ASCII:
    [json.dumps] escapes every other character of a string, so for an
    event whose floats have an ASCII text, standard output grows by a
    text of characters from the blank to the tilde, and a newline. *)
Theorem StdoutSink_log_writes_ascii kw (w w' : world) :
  Payload.ascii_floats_kwargs kw = true ->
  StdoutSink.log kw w = (Ok tt, w') ->
  exists text,
    Json.dumps kw = Ok text /\
    stdout w' = stdout w +:+ text +:+ newline /\
    Payload.ascii_text text = true.
Proof.
  intros Hf. rewrite stdout_log_cases.
  destruct (Json.dumps kw) as [text|e] eqn:Hd; [|discriminate].
  rewrite print_cases. destruct (next_answer w); [discriminate|].
  intros [= <-]. exists text. split; [reflexivity|]. split; [reflexivity|].
  by apply (ascii_encode _ _ Hf Hd).
Qed.

Lemma StdoutSink_log_writes_ascii_witness :
  exists text,
    Json.dumps [(Json.str "msg", Json.PyStr [233%N; 10%N; 128512%N])] = Ok text /\
    Payload.ascii_text text = true.
Proof.
  destruct (StdoutSink_log_writes_ascii
              [(Json.str "msg", Json.PyStr [233%N; 10%N; 128512%N])]
              (Example.boot [])
              (snd (StdoutSink.log
                      [(Json.str "msg", Json.PyStr [233%N; 10%N; 128512%N])]
                      (Example.boot []))))
    as (text & Hd & _ & Ha).
  - vm_compute. reflexivity.
  - vm_compute. reflexivity.
  - exists text. split; [exact Hd|exact Ha].
Defined.

(* ===================================================================== *)
(** * From construction to the first event; when [log] reconnects *)
(* ===================================================================== *)

(** X18.  On a healthy server, constructing a sink and logging one event
    (in a call that binds its fields, the integers of the event within
    the conversion limit) makes three calls and no more: the client is built for the given
    host and port (6379 when none is given), pinged, and the JSON text of
    the event is pushed through it to the list of the given key. *)
Theorem RedisSink_init_then_log (h k : string) (p : option Z) kw text (w : world) :
  Call.binds kw = true ->
  Limits.ints_fit_kwargs kw = true ->
  Json.dumps kw = Ok text ->
  answer_at 0 w = None ->
  answer_at 1 w = None ->
  answer_at 2 w = None ->
  let c := Client (next_id w) h (default 6379 p) 0 30 in
  let s := Obj h (default 6379 p) k (Some c) in
  exists w1 w2,
    RedisSink.__init__ h k p w = (Ok s, w1) /\
    Call.RedisSink_log kw (s, w1) = (Ok tt, (s, w2)) /\
    trace w2 = (trace w ++ [EvStrictRedis c None; EvPing c None;
                            EvRpush c k text None])%list /\
    store w2 !! k = Some (default [] (store w !! k) ++ [text])%list.
Proof.
  intros Hb _ Hd A0 A1 A2 c s.
  set (w1 := answered (EvPing c) (do_alloc (answered (EvStrictRedis c) w))).
  assert (Hinit : RedisSink.__init__ h k p w = (Ok s, w1)).
  { unfold RedisSink.__init__. rewrite connect_cases. cbv zeta.
    rewrite <- answer_at_0, <- answer_at_1, A0, A1. reflexivity. }
  assert (A0' : answer_at 0 w1 = None).
  { unfold w1. by rewrite answer_at_answered, answer_at_do_alloc, answer_at_answered. }
  assert (Hc : _conn s = Some c) by reflexivity.
  exists w1, (do_push k text (answered (EvRpush c k text) w1)).
  split; [exact Hinit|]. split.
  { rewrite (call_RedisSink_log_binds _ _ Hb).
    rewrite (log_connected_cases _ _ _ _ _ Hc Hd). cbv zeta. by rewrite A0'. }
  rewrite answer_at_0 in A0, A0'.
  rewrite <- (answer_at_answered 0 (EvStrictRedis c)), <- (answer_at_do_alloc 0),
    answer_at_0 in A1.
  split.
  - unfold answered at 1. cbn [trace do_push]. rewrite A0'.
    unfold w1, answered at 1. cbn [trace]. rewrite A1.
    unfold do_alloc, answered. cbn [trace]. rewrite A0, <- !app_assoc. reflexivity.
  - cbn [store do_push]. rewrite push_lookup. reflexivity.
Qed.

Lemma RedisSink_init_then_log_witness :
  exists w1 w2,
    RedisSink.__init__ "localhost" "events" None (Example.boot [])
      = (Ok Example.sink, w1) /\
    Call.RedisSink_log Example.event (Example.sink, w1)
      = (Ok tt, (Example.sink, w2)) /\
    store w2 !! "events" = Some [Example.event_text].
Proof.
  destruct (RedisSink_init_then_log "localhost" "events" None Example.event
              Example.event_text (Example.boot []))
    as (w1 & w2 & H1 & H2 & _ & Hst);
    [vm_compute; reflexivity .. |].
  exists w1, w2. split; [exact H1|]. split; [exact H2|exact Hst].
Defined.

(** X19.  [log] reconnects exactly when its first push raises a redis
    [ConnectionError]: for a sink that has a connection and a call that
    binds its fields, the event being serializable (its integers within
    the conversion limit), a client is built during the call if and only
    if the answer to the first push is such an error. *)
Theorem RedisSink_log_reconnects_iff kw (s : RedisSink.t) (w : world) :
  is_Some (_conn s) ->
  Call.binds kw = true ->
  Limits.ints_fit_kwargs kw = true ->
  Payload.serializable_kwargs kw = true ->
  let w' := snd (snd (Call.RedisSink_log kw (s, w))) in
  (count is_connect (trace w) < count is_connect (trace w'))%nat <->
  exists e1, answer_at 0 w = Some e1 /\ is_ConnectionError e1 = true.
Proof.
  intros [c Hc] Hb _ Hs w'. unfold w'.
  apply dumps_serializable in Hs as [text Hd].
  rewrite (call_RedisSink_log_binds _ _ Hb).
  rewrite (log_connected_cases _ _ _ _ _ Hc Hd). cbv zeta.
  destruct (answer_at 0 w) as [e1|] eqn:A0.
  - destruct (is_ConnectionError e1) eqn:He1.
    + split; [eauto|]. intros _.
      destruct (answer_at 1 w) as [e2|];
        [|destruct (answer_at 2 w) as [e2|];
          [|destruct (answer_at 3 w) as [e2|]]];
        try destruct (is_Exception e2); simpl; unfold answered; simpl;
        rewrite !count_app, !count_one; simpl;
        repeat match goal with |- context [if ?b then _ else _] => destruct b end; lia.
    + simpl. unfold answered. simpl. rewrite count_app, count_one. simpl.
      split; [lia|]. intros (e & [= <-] & He). congruence.
  - simpl. unfold answered. simpl. rewrite count_app, count_one. simpl.
    split; [lia|]. intros (e & [=] & _).
Qed.

Lemma RedisSink_log_reconnects_iff_witness :
  (count is_connect (trace (Example.built [Some Example.reset]))
   < count is_connect
       (trace (snd (snd (Call.RedisSink_log Example.event
                           (Example.sink, Example.built [Some Example.reset]))))))%nat.
Proof.
  apply (RedisSink_log_reconnects_iff Example.event Example.sink
           (Example.built [Some Example.reset])).
  - by exists Example.conn0.
  - vm_compute. reflexivity.
  - vm_compute. reflexivity.
  - vm_compute. reflexivity.
  - exists Example.reset. split; reflexivity.
Defined.

(* ===================================================================== *)
(** * A call that cannot bind its fields *)
(* ===================================================================== *)


